(** * compute_results.py: event-bounded parsing and binning of Oscar 2013 files

    A shallow embedding of [src/compute_results.py] and the properties of
    its event tracker, its binning code and its file loop.

    Numbers.  The script computes with binary64 values ([np.float64],
    [math.log], [math.sqrt], [math.floor]).  Here a binary64 value is a
    real number and the operations are the exact ones of [R]; rounding,
    overflow and NaN are outside this model.  The event counter is a
    [np.int64], modelled as an integer with its wrap-around.  The two
    library calls that read text, [str.split] and [np.float64] on a
    string, are modelled by [split] below and by a parameter
    [float64 : string -> option R]. *)

From Stdlib Require Import Reals Lra Lia ZArith List String Ascii Bool.
Import ListNotations.

Local Open Scope string_scope.
Local Open Scope R_scope.

(** ** Outcomes of running Python code *)

(** The built-in exceptions the script can raise and never catches. *)
Inductive exn : Type :=
| IndexError
| ValueError
| OSError.

(** A piece of code returns a value, leaves through [sys.exit(status)], or
    raises an exception. *)
Inductive outcome (A : Type) : Type :=
| Return (a : A)
| Exit (status : Z)
| Raise (e : exn).

Arguments Return {A} a.
Arguments Exit {A} status.
Arguments Raise {A} e.

Definition bind {A B : Type} (m : outcome A) (k : A -> outcome B) : outcome B :=
  match m with
  | Return a => k a
  | Exit s => Exit s
  | Raise e => Raise e
  end.

(** [l[i]] on a Python list, for an index that is not negative. *)
Definition index {A : Type} (l : list A) (i : nat) : outcome A :=
  match nth_error l i with
  | Some a => Return a
  | None => Raise IndexError
  end.

(** [s[0]] on a Python string. *)
Definition first_char (s : string) : outcome ascii :=
  match s with
  | String c _ => Return c
  | EmptyString => Raise IndexError
  end.

Declare Scope outcome_scope.
Delimit Scope outcome_scope with outcome.
Notation "x <- m ;; k" := (bind m (fun x => k))
  (at level 61, m at next level, right associativity) : outcome_scope.
Local Open Scope outcome_scope.

(** ** Text: [str.split()] *)

(** The ASCII characters that [str.split()] treats as separators (the
    lines are taken as sequences of ASCII characters). *)
Definition is_space (c : ascii) : bool :=
  match nat_of_ascii c with
  | 9 | 10 | 11 | 12 | 13 | 28 | 29 | 30 | 31 | 32 => true
  | _ => false
  end%nat.

(** [split_from cur s]: the tokens of [s], where [cur] holds the characters
    of the token being read, last one first. *)
Fixpoint rev_string (acc s : string) : string :=
  match s with
  | EmptyString => acc
  | String c s' => rev_string (String c acc) s'
  end.

Definition flush (cur : string) (rest : list string) : list string :=
  match cur with
  | EmptyString => rest
  | _ => rev_string EmptyString cur :: rest
  end.

Fixpoint split_from (cur s : string) : list string :=
  match s with
  | EmptyString => flush cur []
  | String c s' =>
      if is_space c then flush cur (split_from EmptyString s')
      else split_from (String c cur) s'
  end.

Definition split (iline : string) : list string := split_from EmptyString iline.

(** [l[a:b]] on a Python list, for [0 <= a <= b]. *)
Definition slice {A : Type} (l : list A) (a b : nat) : list A :=
  firstn (b - a) (skipn a l).

(** ** Constants of the script (lines 26-45) *)

Definition rap_cut : R := 1000.
Definition pT_min_cut : R := 0.
Definition pT_max_cut : R := 1000.

(** ** Hadron registry (lines 49-58) *)

Definition hadrons : list (string * (nat * string)) :=
  [ ("211",   (0%nat, "pion_plus"));
    ("-211",  (1%nat, "pion_minus"));
    ("111",   (2%nat, "pion_0"));
    ("321",   (3%nat, "kaon_plus"));
    ("-321",  (4%nat, "kaon_minus"));
    ("2212",  (5%nat, "proton"));
    ("-2212", (6%nat, "anti-proton"));
    ("2112",  (7%nat, "neutron"));
    ("-2112", (8%nat, "anti-neutron")) ].

(** [hadrons[k]] when [k in hadrons]. *)
Fixpoint lookup {V : Type} (d : list (string * V)) (k : string) : option V :=
  match d with
  | [] => None
  | (k', v) :: d' => if String.eqb k k' then Some v else lookup d' k
  end.

(** ** Format adapter (lines 74-90) *)

Record format : Type := {
  pdg_idx : nat;
  mom_start : nat;
  mom_end : nat;
  event_name_identifier : string;
  event_start_identifier : string;
  event_end_identifier : string
}.

Definition SMASH : format :=
  {| pdg_idx := 9; mom_start := 5; mom_end := 5 + 4;
     event_name_identifier := "event";
     event_start_identifier := "out";
     event_end_identifier := "end" |}.

Definition BHAC_QGP : format :=
  {| pdg_idx := 8; mom_start := 4; mom_end := 4 + 4;
     event_name_identifier := "Event";
     event_start_identifier := "start";
     event_end_identifier := "end" |}.

(** [None] is the branch that prints and calls [sys.exit(1)]. *)
Definition select_format (type : string) : option format :=
  if String.eqb type "SMASH" then Some SMASH
  else if String.eqb type "BHAC-QGP" then Some BHAC_QGP
  else None.

(** ** Histograms: arrays of shape (nh, bins, 3) *)

Definition nh : nat := List.length hadrons.

Definition dN_idx : nat := 0.
Definition v1_idx : nat := 1.
Definition v2_idx : nat := 2.

Definition hist : Type := list (list (list R)).

(** [np.zeros((a, b, 3))]. *)
Definition zeros (a b : nat) : hist := repeat (repeat (repeat 0 3) b) a.

(** Apply [f] at position [i]; nothing changes when [i] is out of range. *)
Fixpoint upd {A : Type} (f : A -> A) (i : nat) (l : list A) {struct l}
  : list A :=
  match l, i with
  | [], _ => []
  | a :: l', O => f a :: l'
  | a :: l', S i' => a :: upd f i' l'
  end.

(** [h[i, j, k] += v].  The script reaches this with [(i, j, k)] inside
    the shape of [h], where NumPy does not raise: [i] comes from the
    registry, [j] has passed the test of line 182 or 189, and [k] is one of
    the three constants (see [fill_ok]). *)
Definition add_at (h : hist) (i j k : nat) (v : R) : hist :=
  upd (upd (upd (fun x => x + v) k) j) i h.

(** Pointwise combination of two arrays of one shape. *)
Fixpoint map2 {A : Type} (f : A -> A -> A) (a b : list A) : list A :=
  match a, b with
  | x :: a', y :: b' => f x y :: map2 f a' b'
  | _, _ => []
  end.

(** [a += b] on two arrays of one shape: the value of [a] afterwards. *)
Definition hadd (a b : hist) : hist := map2 (map2 (map2 Rplus)) a b.

(** [h[i, j, k]]; [0] outside the shape. *)
Definition hget (h : hist) (i j k : nat) : R :=
  nth k (nth j (nth i h []) []) 0.

(** ** 64-bit counters *)

(** The value kept by a [np.int64] after an addition. *)
Definition wrap64 (z : Z) : Z :=
  ((z + 2 ^ 63) mod 2 ^ 64 - 2 ^ 63)%Z.

Definition int64_add (a b : Z) : Z := wrap64 (a + b).

(** ** Comparisons on reals as booleans *)

Definition Rleb (x y : R) : bool := if Rle_dec x y then true else false.
Definition Rltb (x y : R) : bool := if Rlt_dec x y then true else false.
Definition Reqb (x y : R) : bool := if Req_dec_T x y then true else false.

(** ** Resolutions (lines 34-45, 96-98) *)

Definition rap_resolution : R := 0.2.
Definition pT_resolution : R := 0.1.
Definition dy : R := rap_resolution.
Definition dpT : R := pT_resolution.

(** ** The program *)

(** State of the loop of [extract_data_oscar] (lines 125, 131-135). *)
Record state : Type := {
  unfinished_event : bool;
  events_in_file : Z;
  y_spectra_event : hist;
  pT_spectra_event : hist;
  y_spectra_file : hist;
  pT_spectra_file : hist
}.

(** Run totals, the module-level variables of lines 108-112. *)
Record totals : Type := {
  total_events : Z;
  y_spectra : hist;
  pT_spectra : hist
}.

(** The tuple given to [pickle.dump] (line 236), without its text. *)
Record pickle : Type := {
  out_hadrons : list (string * (nat * string));
  out_total_events : Z;
  out_pT_min_cut : R;
  out_pT_max_cut : R;
  out_rap_cut : R;
  out_y_arr : list R;
  out_pT_arr : list R;
  out_dy : R;
  out_dpT : R;
  out_y_spectra : hist;
  out_pT_spectra : hist
}.

(** [s1 == s2] on strings, and on characters. *)
Definition str_eq (a b : string) : bool := String.eqb a b.
Definition chr_eq (a b : ascii) : bool := Ascii.eqb a b.

Section Program.

(** [np.float64(s)] for a string [s]; [None] when NumPy raises
    [ValueError]. *)
Variable float64 : string -> option R.

(** The grid the script computes once in binary64 (lines 100-106): the
    numbers of bins and the arrays of bin centres. *)
Variables ny npT : nat.
Variables y_arr pT_arr : list R.

(** [np.float64(l)] for a list of strings. *)
Fixpoint float64_list (l : list string) : option (list R) :=
  match l with
  | [] => Some []
  | s :: l' =>
      match float64 s, float64_list l' with
      | Some x, Some xs => Some (x :: xs)
      | _, _ => None
      end
  end.

(** [a, b, c, d = np.float64(l)]: a conversion that fails and a result
    that has not four entries both raise [ValueError]. *)
Definition unpack4 (l : list string) : outcome (R * R * R * R) :=
  match float64_list l with
  | Some [a; b; c; d] => Return (a, b, c, d)
  | _ => Raise ValueError
  end.

(** Lines 148-151: fold the event into the file, clear the event. *)
Definition commit (st : state) : state :=
  {| unfinished_event := false;
     events_in_file := int64_add (events_in_file st) 1;
     y_spectra_event := zeros nh ny;
     pT_spectra_event := zeros nh npT;
     y_spectra_file := hadd (y_spectra_file st) (y_spectra_event st);
     pT_spectra_file := hadd (pT_spectra_file st) (pT_spectra_event st) |}.

(** Lines 141-160: a comment line whose tokens are [line]. *)
Definition comment_line (fmt : format) (st : state) (line : list string)
  : outcome state :=
  l1 <- index line 1 ;;
  if str_eq l1 (event_name_identifier fmt) then
    l3 <- index line 3 ;;
    if str_eq l3 (event_start_identifier fmt) then
      Return {| unfinished_event := true;
                events_in_file := events_in_file st;
                y_spectra_event := y_spectra_event st;
                pT_spectra_event := pT_spectra_event st;
                y_spectra_file := y_spectra_file st;
                pT_spectra_file := pT_spectra_file st |}
    else if str_eq l3 (event_end_identifier fmt) then
      if unfinished_event st then Return (commit st)
      else Exit 1
    else Exit 1
  else Return st.

(** The three additions of lines 183-185 and 190-192. *)
Definition add_particle (h : hist) (hadron_index bin : nat) (v1 v2 : R) : hist :=
  add_at (add_at (add_at h hadron_index bin dN_idx 1)
                 hadron_index bin v1_idx v1)
         hadron_index bin v2_idx v2.

(** Line 182. *)
Definition accept_y (rapidity_index : Z) (pT : R) : bool :=
  (0 <=? rapidity_index)%Z && (rapidity_index <? Z.of_nat ny)%Z
  && Rleb pT_min_cut pT && Rltb pT pT_max_cut.

(** Line 189. *)
Definition accept_pT (pT_index : Z) (rapidity : R) : bool :=
  (0 <=? pT_index)%Z && (pT_index <? Z.of_nat npT)%Z
  && Rltb (Rabs rapidity) rap_cut.

(** Lines 170-192: the particle of species [hadron_index] and momentum
    [(p0, px, py, pz)]. *)
Definition fill (y_start pT_start dy dpT : R) (st : state)
    (hadron_index : nat) (p0 px py pz : R) : state :=
  if Rleb ((p0 - pz) * (p0 + pz)) 0 then st
  else
    let rapidity := 0.5 * ln ((p0 + pz) / (p0 - pz)) in
    let pT2 := px ^ 2 + py ^ 2 in
    if Reqb pT2 0 then st
    else
      let pT := sqrt pT2 in
      let v1 := px / pT in
      let v2 := (px ^ 2 - py ^ 2) / pT2 in
      let rapidity_index := Zfloor ((rapidity - y_start) / dy) in
      let pT_index := Zfloor ((pT - pT_start) / dpT) in
      {| unfinished_event := unfinished_event st;
         events_in_file := events_in_file st;
         y_spectra_event :=
           if accept_y rapidity_index pT
           then add_particle (y_spectra_event st) hadron_index
                             (Z.to_nat rapidity_index) v1 v2
           else y_spectra_event st;
         pT_spectra_event :=
           if accept_pT pT_index rapidity
           then add_particle (pT_spectra_event st) hadron_index
                             (Z.to_nat pT_index) v1 v2
           else pT_spectra_event st;
         y_spectra_file := y_spectra_file st;
         pT_spectra_file := pT_spectra_file st |}.

(** Lines 162-192: a line that is not a comment. *)
Definition particle_line (fmt : format) (y_start pT_start dy dpT : R)
    (st : state) (line : list string) : outcome state :=
  pdg_ID <- index line (pdg_idx fmt) ;;
  match lookup hadrons pdg_ID with
  | None => Return st
  | Some (hadron_index, _) =>
      txyz <- unpack4 (slice line 0 4) ;;
      p <- unpack4 (slice line (mom_start fmt) (mom_end fmt)) ;;
      let '(p0, px, py, pz) := p in
      Return (fill y_start pT_start dy dpT st hadron_index p0 px py pz)
  end.

(** Lines 139-192: the body of the loop over the lines of the file. *)
Definition process_line (fmt : format) (y_start pT_start dy dpT : R)
    (st : state) (iline : string) : outcome state :=
  let line := split iline in
  l0 <- index line 0 ;;
  c0 <- first_char l0 ;;
  if chr_eq c0 "#"
  then comment_line fmt st line
  else particle_line fmt y_start pT_start dy dpT st line.

(** Line 137: the loop, left at the first exit or exception. *)
Fixpoint read_lines (fmt : format) (y_start pT_start dy dpT : R)
    (st : state) (ifile : list string) : outcome state :=
  match ifile with
  | [] => Return st
  | iline :: rest =>
      st' <- process_line fmt y_start pT_start dy dpT st iline ;;
      read_lines fmt y_start pT_start dy dpT st' rest
  end.

(** Lines 131-135. *)
Definition initial_state : state :=
  {| unfinished_event := false;
     events_in_file := 0;
     y_spectra_event := zeros nh ny;
     pT_spectra_event := zeros nh npT;
     y_spectra_file := zeros nh ny;
     pT_spectra_file := zeros nh npT |}.

(** Lines 124-194.  [fs infile] holds the lines of the file, or [None]
    when [open] raises.  The first component of the result is a Python
    value that the caller compares with [None]. *)
Definition extract_data_oscar (fs : string -> option (list string))
    (fmt : format) (infile : string) (y_arr pT_arr : list R) (dy dpT : R)
  : outcome (option Z * hist * hist) :=
  y0 <- index y_arr 0 ;;
  let y_start := y0 - dy / 2 in
  pT0 <- index pT_arr 0 ;;
  let pT_start := pT0 - dpT / 2 in
  match fs infile with
  | None => Raise OSError
  | Some ifile =>
      st <- read_lines fmt y_start pT_start dy dpT initial_state ifile ;;
      Return (Some (events_in_file st), y_spectra_file st, pT_spectra_file st)
  end.

(** Lines 202-212: the loop over the input files. *)
Fixpoint run_files (fs : string -> option (list string)) (fmt : format)
    (tot : totals) (inputs : list string) : outcome totals :=
  match inputs with
  | [] => Return tot
  | infile :: rest =>
      r <- extract_data_oscar fs fmt infile y_arr pT_arr dy dpT ;;
      let '(new_events, new_y_spectra, new_pT_spectra) := r in
      match new_events with
      | None => run_files fs fmt tot rest
      | Some n =>
          if (n =? 0)%Z then run_files fs fmt tot rest
          else run_files fs fmt
                 {| total_events := int64_add (total_events tot) n;
                    y_spectra := hadd (y_spectra tot) new_y_spectra;
                    pT_spectra := hadd (pT_spectra tot) new_pT_spectra |}
                 rest
      end
  end.

(** Lines 108-112. *)
Definition initial_totals : totals :=
  {| total_events := 0;
     y_spectra := zeros nh ny;
     pT_spectra := zeros nh npT |}.

(** The script from line 74 on: [Return p] when it reaches line 236 and
    writes [p]; no file is written on the other outcomes.  The renaming
    of an older output file (lines 196-200) is left out. *)
Definition main (type : string) (fs : string -> option (list string))
    (inputs : list string) : outcome pickle :=
  match select_format type with
  | None => Exit 1
  | Some fmt =>
      tot <- run_files fs fmt initial_totals inputs ;;
      if (total_events tot =? 0)%Z then Exit 2
      else Return {| out_hadrons := hadrons;
                     out_total_events := total_events tot;
                     out_pT_min_cut := pT_min_cut;
                     out_pT_max_cut := pT_max_cut;
                     out_rap_cut := rap_cut;
                     out_y_arr := y_arr;
                     out_pT_arr := pT_arr;
                     out_dy := dy;
                     out_dpT := dpT;
                     out_y_spectra := y_spectra tot;
                     out_pT_spectra := pT_spectra tot |}
  end.

End Program.


(** ** Reading a line: which kind of line it is *)

(** The test of line 140 on the tokens of [iline]. *)
Definition is_comment (iline : string) : bool :=
  match split iline with
  | String c _ :: _ => chr_eq c "#"
  | _ => false
  end.

(** A line with a first token that does not start with the comment mark:
    the lines that reach line 162. *)
Definition is_particle_line (iline : string) : bool :=
  match split iline with
  | String c _ :: _ => negb (chr_eq c "#")
  | _ => false
  end.

(** A comment line that names an event block and carries the label
    [label] in its fourth token (lines 141-144). *)
Definition is_event_label (fmt : format) (label iline : string) : bool :=
  is_comment iline &&
  match nth_error (split iline) 1, nth_error (split iline) 3 with
  | Some l1, Some l3 => str_eq l1 (event_name_identifier fmt) && str_eq l3 label
  | _, _ => false
  end.

Definition is_end_marker (fmt : format) (iline : string) : bool :=
  negb (is_event_label fmt (event_start_identifier fmt) iline)
  && is_event_label fmt (event_end_identifier fmt) iline.

(** ** Shapes and bounds of histograms *)

(** [h] has shape (a, b, 3). *)
Definition shape (a b : nat) (h : hist) : Prop :=
  List.length h = a /\
  Forall (fun row => List.length row = b /\
                     Forall (fun cell => List.length cell = 3%nat) row) h.

(** In every bin the two flow sums are bounded by the count. *)
Definition bounded (h : hist) : Prop :=
  forall i j, Rabs (hget h i j v1_idx) <= hget h i j dN_idx /\
              Rabs (hget h i j v2_idx) <= hget h i j dN_idx.

(** The invariant of every histogram of the script. *)
Definition wf (a b : nat) (h : hist) : Prop := shape a b h /\ bounded h.

Definition cell_ok (cell : list R) : Prop := List.length cell = 3%nat.

(** What one accepted particle adds to the entry [(i', j', k')]. *)
Definition particle_entry (i j : nat) (v1 v2 : R) (i' j' k' : nat) : R :=
  if Nat.eqb i i' && Nat.eqb j j' then nth k' [1; v1; v2] 0 else 0.

Definition int64 (z : Z) : Prop := (- 2 ^ 63 <= z < 2 ^ 63)%Z.

(** The invariant of the loop of [extract_data_oscar]. *)
Definition state_ok (ny npT : nat) (st : state) : Prop :=
  wf nh ny (y_spectra_event st) /\ wf nh npT (pT_spectra_event st) /\
  wf nh ny (y_spectra_file st) /\ wf nh npT (pT_spectra_file st) /\
  int64 (events_in_file st).

(** The invariant of the loop over the files. *)
Definition totals_ok (ny npT : nat) (tot : totals) : Prop :=
  wf nh ny (y_spectra tot) /\ wf nh npT (pT_spectra tot) /\
  int64 (total_events tot).

(** [after] is [before] with one particle added in the bin [(h, bin)]:
    the count grows by one, the two flow sums by [v1] and [v2], and no
    other entry changes. *)
Definition adds_particle (before after : hist) (h bin : nat) (v1 v2 : R)
  : Prop :=
  hget after h bin dN_idx = hget before h bin dN_idx + 1 /\
  hget after h bin v1_idx = hget before h bin v1_idx + v1 /\
  hget after h bin v2_idx = hget before h bin v2_idx + v2 /\
  forall i j k, i <> h \/ j <> bin -> hget after i j k = hget before i j k.

(** The state [st] with the event flag set to [b]. *)
Definition with_flag (b : bool) (st : state) : state :=
  {| unfinished_event := b;
     events_in_file := events_in_file st;
     y_spectra_event := y_spectra_event st;
     pT_spectra_event := pT_spectra_event st;
     y_spectra_file := y_spectra_file st;
     pT_spectra_file := pT_spectra_file st |}.

(** ** A reader of numbers, the grid of the script and sample lines

    The properties below hold for every reader [float64] and every grid.
    The examples use a reader of signed integer literals, the grid that
    lines 100-106 produce in binary64 (51 rapidity bins centred on -5.0,
    -4.8, ..., 5.0 and 40 bins centred on 0.05, 0.15, ..., 3.95) and lines
    in the SMASH layout [t x y z mass p0 px py pz pdg ID charge]. *)

Definition digit (c : ascii) : option Z :=
  let n := nat_of_ascii c in
  if Nat.leb 48 n && Nat.leb n 57 then Some (Z.of_nat (n - 48)) else None.

Fixpoint digits (acc : Z) (s : string) : option Z :=
  match s with
  | EmptyString => Some acc
  | String c s' =>
      match digit c with
      | Some d => digits (10 * acc + d) s'
      | None => None
      end
  end.

Definition unsigned_literal (s : string) : option Z :=
  match s with
  | EmptyString => None
  | _ => digits 0 s
  end.

Definition integer_literal (s : string) : option R :=
  match s with
  | String "-" s' => option_map (fun z => IZR (- z)) (unsigned_literal s')
  | _ => option_map IZR (unsigned_literal s)
  end.

Definition script_ny : nat := 51.
Definition script_npT : nat := 40.
Definition script_y_arr : list R :=
  map (fun i => -5 + IZR (Z.of_nat i) * 0.2) (seq 0 script_ny).
Definition script_pT_arr : list R :=
  map (fun i => 0.05 + IZR (Z.of_nat i) * 0.1) (seq 0 script_npT).

(** A directory: the files that [open] can read, with their lines. *)
Definition directory (files : list (string * list string))
  : string -> option (list string) := lookup files.

Definition event_start_line : string := "# event 0 out 1".
Definition event_end_line : string := "# event 0 end 0 impact 0.000".
(** A pion with [p0 = 1], [px = -1], [py = 0], [pz = 0]. *)
Definition pion_line : string := "0 0 0 0 0.138 1 -1 0 0 211 0 1".

(** A pion with [p0 = 6], [px = 5]: its pT lies beyond the pT axis. *)
Definition wide_line : string := "0 0 0 0 0.138 6 5 0 0 211 0 1".
(** A pion with [px = 2000]: its pT lies beyond the pT window as well. *)
Definition hard_line : string := "0 0 0 0 0.138 3000 2000 0 0 211 0 1".
(** A pion with [p0 = 88574], [pz = 88573]: its rapidity, half the
    logarithm of [3^11], lies beyond the rapidity axis. *)
Definition forward_line : string := "0 0 0 0 0.138 88574 1 0 88573 211 0 1".

(** A pion with [p0 = pz = 1]: [(p0 - pz) * (p0 + pz)] is zero. *)
Definition lightlike_line : string := "0 0 0 0 0 1 1 0 1 211 0 1".

(** The lower edges of the two axes of the script's grid (lines 126-127). *)
Definition script_ys : R := -5 + 0 * 0.2 - dy / 2.
Definition script_ps : R := 0.05 + 0 * 0.1 - dpT / 2.

(** Some entry of the count grows by one from [before] to [after]. *)
Definition contributes (before after : hist) : Prop :=
  exists i j, hget after i j dN_idx = hget before i j dN_idx + 1.

(** ** What a line asks for

    [process_line] reads as two steps: the line alone decides what is to
    be done ([action_of]), and the state decides how it ends
    ([perform]); see [process_line_action]. *)
Inductive action : Type :=
| Start
| Commit
| Keep
| Fill (hadron_index : nat) (p0 px py pz : R).

Definition action_of (float64 : string -> option R) (fmt : format)
    (iline : string) : outcome action :=
  let line := split iline in
  l0 <- index line 0 ;;
  c0 <- first_char l0 ;;
  if chr_eq c0 "#" then
    l1 <- index line 1 ;;
    if str_eq l1 (event_name_identifier fmt) then
      l3 <- index line 3 ;;
      if str_eq l3 (event_start_identifier fmt) then Return Start
      else if str_eq l3 (event_end_identifier fmt) then Return Commit
      else Exit 1
    else Return Keep
  else
    pdg_ID <- index line (pdg_idx fmt) ;;
    match lookup hadrons pdg_ID with
    | None => Return Keep
    | Some (hadron_index, _) =>
        txyz <- unpack4 float64 (slice line 0 4) ;;
        p <- unpack4 float64 (slice line (mom_start fmt) (mom_end fmt)) ;;
        let '(p0, px, py, pz) := p in
        Return (Fill hadron_index p0 px py pz)
    end.

Definition perform (ny npT : nat) (ys ps dy dpT : R) (st : state) (a : action)
  : outcome state :=
  match a with
  | Start => Return (with_flag true st)
  | Commit => if unfinished_event st then Return (commit ny npT st) else Exit 1
  | Keep => Return st
  | Fill h p0 px py pz => Return (fill ny npT ys ps dy dpT st h p0 px py pz)
  end.

(** Some line of [lines] is an end-of-event marker. *)
Definition has_end_marker (fmt : format) (lines : list string) : bool :=
  existsb (is_end_marker fmt) lines.

(** What the line [iline] alone puts into an empty event histogram. *)
Definition contribution_y (float64 : string -> option R) (ny npT : nat)
    (fmt : format) (ys ps dy dpT : R) (iline : string) : hist :=
  match process_line float64 ny npT fmt ys ps dy dpT (initial_state ny npT) iline with
  | Return st => y_spectra_event st
  | _ => zeros nh ny
  end.

Definition contribution_pT (float64 : string -> option R) (ny npT : nat)
    (fmt : format) (ys ps dy dpT : R) (iline : string) : hist :=
  match process_line float64 ny npT fmt ys ps dy dpT (initial_state ny npT) iline with
  | Return st => pT_spectra_event st
  | _ => zeros nh npT
  end.

(** Two runs of the loop that differ by the amounts [cy] and [cpT]: still
    held in the event histograms ([pending]), or folded into the file
    histograms ([folded]). *)
Definition pending (cy cpT : hist) (s1 s2 : state) : Prop :=
  unfinished_event s1 = unfinished_event s2 /\
  events_in_file s1 = events_in_file s2 /\
  y_spectra_event s1 = hadd (y_spectra_event s2) cy /\
  pT_spectra_event s1 = hadd (pT_spectra_event s2) cpT /\
  y_spectra_file s1 = y_spectra_file s2 /\
  pT_spectra_file s1 = pT_spectra_file s2.

Definition folded (cy cpT : hist) (s1 s2 : state) : Prop :=
  unfinished_event s1 = unfinished_event s2 /\
  events_in_file s1 = events_in_file s2 /\
  y_spectra_event s1 = y_spectra_event s2 /\
  pT_spectra_event s1 = pT_spectra_event s2 /\
  y_spectra_file s1 = hadd (y_spectra_file s2) cy /\
  pT_spectra_file s1 = hadd (pT_spectra_file s2) cpT.

(** Sample files. *)
Definition sample_directory : string -> option (list string) :=
  directory
    [ ("one_event.oscar", [event_start_line; pion_line; event_end_line]);
      ("no_particle.oscar", [event_start_line; event_end_line]);
      ("open_event.oscar",
        [event_start_line; pion_line; event_end_line;
         event_start_line; pion_line]);
      ("stray.oscar", [pion_line; event_start_line; event_end_line]);
      ("end_first.oscar", [event_end_line; event_start_line; pion_line]);
      ("blank.oscar", [event_start_line; ""; event_end_line]) ].

(** The loop of [extract_data_oscar] and the script on the sample
    directory, with the reader of integer literals and the script's grid. *)
Definition sample_step : state -> string -> outcome state :=
  process_line integer_literal script_ny script_npT SMASH
    script_ys script_ps dy dpT.

Definition sample_read : state -> list string -> outcome state :=
  read_lines integer_literal script_ny script_npT SMASH
    script_ys script_ps dy dpT.

Definition sample_extract (infile : string) : outcome (option Z * hist * hist) :=
  extract_data_oscar integer_literal script_ny script_npT sample_directory
    SMASH infile script_y_arr script_pT_arr dy dpT.

Definition sample_run (inputs : list string) : outcome totals :=
  run_files integer_literal script_ny script_npT script_y_arr script_pT_arr
    sample_directory SMASH (initial_totals script_ny script_npT) inputs.

Definition sample_main (type : string) (inputs : list string) : outcome pickle :=
  main integer_literal script_ny script_npT script_y_arr script_pT_arr
    type sample_directory inputs.

Definition sample_initial : state := initial_state script_ny script_npT.

(** The histogram with one pion of [pion_line] in its bin of index [bin]. *)
Definition one_pion (bins bin : nat) : hist :=
  add_particle (zeros nh bins) 0 bin (-1) 1.

(** The run totals after a file that holds one event with one pion. *)
Definition one_pion_totals : totals :=
  {| total_events := 1;
     y_spectra := hadd (zeros nh script_ny)
                    (hadd (zeros nh script_ny) (one_pion script_ny 25));
     pT_spectra := hadd (zeros nh script_npT)
                     (hadd (zeros nh script_npT) (one_pion script_npT 10)) |}.

(** The state after the start marker and the pion line of
    ["one_event.oscar"], just before its end marker. *)
Definition before_commit : state :=
  {| unfinished_event := true;
     events_in_file := 0;
     y_spectra_event := one_pion script_ny 25;
     pT_spectra_event := one_pion script_npT 10;
     y_spectra_file := zeros nh script_ny;
     pT_spectra_file := zeros nh script_npT |}.

(** Split a conjunction that is written out, leaving folded ones alone. *)
Ltac split_all := repeat match goal with |- _ /\ _ => split end.

(** Reduce the projections of a state that is written out. *)
Ltac fields :=
  cbn [unfinished_event events_in_file y_spectra_event pT_spectra_event
       y_spectra_file pT_spectra_file total_events y_spectra pT_spectra] in *.


From Stdlib Require Import Permutation.

(** * Further definitions *)

(** ** Markers and labels *)

(** A comment line that names an event block and carries the start label
    (lines 141-143). *)
Definition is_start_marker (fmt : format) (iline : string) : bool :=
  is_event_label fmt (event_start_identifier fmt) iline.

(** A comment line that names an event block with a fourth token that is
    neither of the two labels (lines 157-159). *)
Definition is_unknown_label (fmt : format) (iline : string) : bool :=
  is_comment iline &&
  match nth_error (split iline) 1, nth_error (split iline) 3 with
  | Some l1, Some l3 =>
      str_eq l1 (event_name_identifier fmt) &&
      negb (str_eq l3 (event_start_identifier fmt)) &&
      negb (str_eq l3 (event_end_identifier fmt))
  | _, _ => false
  end.

(** A comment line that does not name an event block (lines 140-141, 160),
    or a particle line with a code outside the registry (lines 162-166). *)
Definition is_ignored (fmt : format) (iline : string) : bool :=
  match nth_error (split iline) 1 with
  | Some l1 => is_comment iline && negb (str_eq l1 (event_name_identifier fmt))
  | None => false
  end
  || match nth_error (split iline) (pdg_idx fmt) with
     | Some pdg_ID =>
         is_particle_line iline &&
         match lookup hadrons pdg_ID with
         | None => true
         | Some _ => false
         end
     | None => false
     end.

(** The number of end-of-event markers among [lines]. *)
Definition count_end_markers (fmt : format) (lines : list string) : nat :=
  List.length (filter (is_end_marker fmt) lines).

(** The tracker after [lines], from the flag [b]: the last start or end
    marker decides. *)
Fixpoint open_after (fmt : format) (b : bool) (lines : list string) : bool :=
  match lines with
  | [] => b
  | l :: rest =>
      open_after fmt
        (if is_start_marker fmt l then true
         else if is_end_marker fmt l then false
         else b)
        rest
  end.

(** The lines up to the last end-of-event marker. *)
Fixpoint committed (fmt : format) (lines : list string) : list string :=
  match lines with
  | [] => []
  | l :: rest => if has_end_marker fmt lines then l :: committed fmt rest else []
  end.

(** The sum of a list of histograms of shape (a, b, 3). *)
Fixpoint hsum (a b : nat) (hs : list hist) : hist :=
  match hs with
  | [] => zeros a b
  | h :: hs' => hadd h (hsum a b hs')
  end.

(** Lines 207-212: the totals after one more file result. *)
Definition merge (tot : totals) (r : option Z * hist * hist) : totals :=
  let '(new_events, new_y_spectra, new_pT_spectra) := r in
  match new_events with
  | None => tot
  | Some n =>
      if (n =? 0)%Z then tot
      else {| total_events := int64_add (total_events tot) n;
              y_spectra := hadd (y_spectra tot) new_y_spectra;
              pT_spectra := hadd (pT_spectra tot) new_pT_spectra |}
  end.

(** Every count of [h] is a whole number. *)
Definition whole_counts (h : hist) : Prop :=
  forall i j, exists n : nat, hget h i j dN_idx = INR n.

(** Every count of the four histograms of a state is a whole number. *)
Definition state_whole (st : state) : Prop :=
  whole_counts (y_spectra_event st) /\ whole_counts (pT_spectra_event st) /\
  whole_counts (y_spectra_file st) /\ whole_counts (pT_spectra_file st).

(** ** The grid (lines 100-106) *)

(** [np.linspace(start, stop, num = num)] in exact arithmetic: [num]
    values from [start] in equal steps, the last one set to [stop]. *)
Definition linspace (start stop : R) (num : nat) : list R :=
  map (fun i => if Nat.eqb (S i) num && Nat.ltb 1 num then stop
                else start + INR i * ((stop - start) / INR (num - 1)))
      (seq 0 num).

(** Lines 104 and 106, for given numbers of bins and bin widths. *)
Definition grid_y_arr (ny : nat) (dy : R) : list R :=
  linspace (- INR ny * dy / 2 + dy / 2) (INR ny * dy / 2 - dy / 2) ny.

Definition grid_pT_arr (npT : nat) (dpT : R) : list R :=
  linspace (0 + dpT / 2) (INR npT * dpT - dpT / 2) npT.

(** ** Lines that are too short *)

(** The line has no token, or it is a comment without a second token, or
    a comment that names an event block without a fourth token, or a
    particle line without the token of the particle code. *)
Definition too_short (fmt : format) (iline : string) : bool :=
  match split iline with
  | [] => true
  | _ :: _ =>
      if is_comment iline then
        match nth_error (split iline) 1 with
        | None => true
        | Some l1 =>
            str_eq l1 (event_name_identifier fmt) &&
            match nth_error (split iline) 3 with
            | None => true
            | Some _ => false
            end
        end
      else
        match nth_error (split iline) (pdg_idx fmt) with
        | None => true
        | Some _ => false
        end
  end.

(** The eight tokens that a particle line gives to [np.float64]. *)
Definition numeric_tokens (fmt : format) (iline : string) : list string :=
  (slice (split iline) 0 4
   ++ slice (split iline) (mom_start fmt) (mom_end fmt))%list.

(** ** The output file (lines 196-200 and 220-236)

    A disk gives the content of the paths that exist.  The input files
    are text files, held as their lines; the output is the pickled tuple.
    [os.rename] is the POSIX one, which replaces its target; failures of
    [os.rename], of [open] for writing and of [pickle.dump] are outside
    this model, and so is reading a pickled file as an input (here it
    fails like a missing file). *)
Inductive content : Type :=
| Text (lines : list string)
| Pickled (p : pickle).

Definition disk : Type := string -> option content.

(** What [open(name, "r")] and the loop over its lines see. *)
Definition readable (d : disk) : string -> option (list string) :=
  fun name =>
    match d name with
    | Some (Text lines) => Some lines
    | _ => None
    end.

(** [os.rename(src, dst)]. *)
Definition rename (d : disk) (src dst : string) : disk :=
  fun name =>
    if String.eqb name dst then d src
    else if String.eqb name src then None
    else d name.

(** [open(name, "wb")] followed by [pickle.dump]. *)
Definition write (d : disk) (name : string) (c : content) : disk :=
  fun n => if String.eqb n name then Some c else d n.

(** Line 199, with [date_string] the time stamp of line 198. *)
Definition backup_name (outputfile date_string : string) : string :=
  outputfile ++ "_backup_copy_" ++ date_string.

(** Lines 196-200. *)
Definition move_old_output (outputfile date_string : string) (d : disk) : disk :=
  match d outputfile with
  | Some _ => rename d outputfile (backup_name outputfile date_string)
  | None => d
  end.

(** The script with its effect on the disk: the outcome of [main] on the
    files that can be read after lines 196-200, and the disk at the end. *)
Definition script (float64 : string -> option R) (ny npT : nat)
    (y_arr pT_arr : list R) (date_string type outputfile : string)
    (inputs : list string) (d : disk) : outcome pickle * disk :=
  match select_format type with
  | None => (Exit 1, d)
  | Some _ =>
      let d1 := move_old_output outputfile date_string d in
      match main float64 ny npT y_arr pT_arr type (readable d1) inputs with
      | Return p => (Return p, write d1 outputfile (Pickled p))
      | Exit status => (Exit status, d1)
      | Raise e => (Raise e, d1)
      end
  end.

(** ** More sample lines and files *)

(** The first line of a SMASH file, a comment that names no event block. *)
Definition header_line : string :=
  "#!OSCAR2013 particle_lists t x y z mass p0 px py pz pdg ID charge".
(** A comment that names an event block with a label of neither kind. *)
Definition odd_label_line : string := "# event 0 begin 1".
(** A pion line whose [px] is not a number. *)
Definition bad_number_line : string := "0 0 0 0 0.138 1 abc 0 0 211 0 1".

Definition more_files : string -> option (list string) :=
  directory
    [ ("header.oscar",
        [header_line; event_start_line; pion_line; event_end_line]);
      ("one_event.oscar", [event_start_line; pion_line; event_end_line]);
      ("restart.oscar",
        [event_start_line; pion_line; event_start_line; pion_line;
         event_end_line]);
      ("merged.oscar",
        [event_start_line; pion_line; pion_line; event_end_line]);
      ("odd_label.oscar", [event_start_line; odd_label_line; event_end_line]);
      ("pion_wide.oscar",
        [event_start_line; pion_line; wide_line; event_end_line]);
      ("wide_pion.oscar",
        [event_start_line; wide_line; pion_line; event_end_line]);
      ("empty.oscar", []);
      ("comments.oscar", [header_line]) ].

Definition more_extract (infile : string) : outcome (option Z * hist * hist) :=
  extract_data_oscar integer_literal script_ny script_npT more_files
    SMASH infile script_y_arr script_pT_arr dy dpT.

Definition more_main (type : string) (inputs : list string) : outcome pickle :=
  main integer_literal script_ny script_npT script_y_arr script_pT_arr
    type more_files inputs.

(** A disk with the sample files and an older output. *)
Definition sample_disk : disk :=
  fun name =>
    if String.eqb name "output.pickle" then Some (Text ["an older output"])
    else option_map Text (sample_directory name).

Definition sample_script (inputs : list string) : outcome pickle * disk :=
  script integer_literal script_ny script_npT script_y_arr script_pT_arr
    "2024-01-31-12-00-00" "SMASH" "output.pickle" inputs sample_disk.

(** The tuple written after ["one_event.oscar"] alone. *)
Definition one_pion_pickle : pickle :=
  {| out_hadrons := hadrons;
     out_total_events := total_events one_pion_totals;
     out_pT_min_cut := pT_min_cut;
     out_pT_max_cut := pT_max_cut;
     out_rap_cut := rap_cut;
     out_y_arr := script_y_arr;
     out_pT_arr := script_pT_arr;
     out_dy := dy;
     out_dpT := dpT;
     out_y_spectra := y_spectra one_pion_totals;
     out_pT_spectra := pT_spectra one_pion_totals |}.
(** * Lemmas on lists and histograms *)

Section ListLemmas.

Context {A : Type}.

Lemma length_upd (f : A -> A) i l : List.length (upd f i l) = List.length l.
Proof.
  revert i; induction l as [|a l IH]; intros [|i]; simpl; auto.
Qed.

Lemma nth_upd (f : A -> A) d (Hd : f d = d) l : forall i i',
  nth i' (upd f i l) d = if Nat.eqb i i' then f (nth i l d) else nth i' l d.
Proof.
  induction l as [|a l IH]; intros i i'.
  - destruct i, i'; simpl; rewrite ?Hd; auto.
    destruct (Nat.eqb i i'); auto.
  - destruct i, i'; simpl; auto.
Qed.

Lemma nth_upd_cell (f : A -> A) d l : forall i i',
  nth i' (upd f i l) d =
  if Nat.eqb i i' && Nat.ltb i (List.length l) then f (nth i l d) else nth i' l d.
Proof.
  induction l as [|a l IH]; intros i i'.
  - destruct i, i'; simpl; rewrite ?andb_false_r; auto.
  - destruct i, i'; simpl; auto.
Qed.

Lemma Forall_upd (P : A -> Prop) (f : A -> A) (Hf : forall x, P x -> P (f x)) l :
  forall i, Forall P l -> Forall P (upd f i l).
Proof.
  induction l as [|a l IH]; intros [|i] H; simpl; auto;
    inversion H; subst; constructor; auto.
Qed.

Lemma length_map2 (f : A -> A -> A) a : forall b,
  List.length a = List.length b -> List.length (map2 f a b) = List.length a.
Proof.
  induction a as [|x a IH]; intros [|y b] H; simpl in *; auto; try discriminate.
Qed.

Lemma nth_map2 (f : A -> A -> A) d (Hd : f d d = d) a : forall b i,
  List.length a = List.length b ->
  nth i (map2 f a b) d = f (nth i a d) (nth i b d).
Proof.
  induction a as [|x a IH]; intros [|y b] [|i] H; simpl in *;
    auto; try discriminate.
Qed.

Lemma map2_assoc (f : A -> A -> A) (Hf : forall x y z, f (f x y) z = f x (f y z)) a :
  forall b c, map2 f (map2 f a b) c = map2 f a (map2 f b c).
Proof.
  induction a as [|x a IH]; intros [|y b] [|z c]; simpl; auto.
  rewrite Hf, IH; reflexivity.
Qed.

Lemma map2_comm (f : A -> A -> A) (Hf : forall x y, f x y = f y x) a :
  forall b, map2 f a b = map2 f b a.
Proof.
  induction a as [|x a IH]; intros [|y b]; simpl; auto.
  rewrite Hf, IH; reflexivity.
Qed.

Lemma upd_map2 (f : A -> A) (g : A -> A -> A)
    (Hfg : forall x y, f (g x y) = g (f x) y) a :
  forall b i, upd f i (map2 g a b) = map2 g (upd f i a) b.
Proof.
  induction a as [|x a IH]; intros [|y b] [|i]; simpl; auto.
  - rewrite Hfg; reflexivity.
  - rewrite IH; reflexivity.
Qed.

Lemma map2_repeat_l (f : A -> A -> A) z (P : A -> Prop)
    (Hz : forall y, P y -> f z y = y) l :
  Forall P l -> map2 f (repeat z (List.length l)) l = l.
Proof.
  induction 1 as [|y l Hy Hl IH]; simpl; auto.
  rewrite Hz, IH; auto.
Qed.

Lemma Forall_map2 (P : A -> Prop) (f : A -> A -> A)
    (Hf : forall x y, P x -> P y -> P (f x y)) a :
  forall b, Forall P a -> Forall P b -> Forall P (map2 f a b).
Proof.
  induction a as [|x a IH]; intros [|y b] Ha Hb; simpl; auto.
  inversion Ha; inversion Hb; subst; constructor; auto.
Qed.

End ListLemmas.

(** ** Shapes *)

Lemma shape_zeros a b : shape a b (zeros a b).
Proof.
  unfold shape, zeros; split.
  - apply repeat_length.
  - apply Forall_forall; intros row Hrow.
    apply repeat_spec in Hrow; subst row; split.
    + apply repeat_length.
    + apply Forall_forall; intros cell Hcell.
      apply repeat_spec in Hcell; subst cell; reflexivity.
Qed.

Lemma shape_add_at a b h i j k v : shape a b h -> shape a b (add_at h i j k v).
Proof.
  unfold shape, add_at; intros [Hl Hr]; split.
  - rewrite length_upd; exact Hl.
  - apply Forall_upd; [|exact Hr].
    intros row [Hrl Hrc]; split.
    + rewrite length_upd; exact Hrl.
    + apply Forall_upd; [|exact Hrc].
      intros cell Hc; rewrite length_upd; exact Hc.
Qed.

Lemma shape_hadd a b x y : shape a b x -> shape a b y -> shape a b (hadd x y).
Proof.
  unfold shape, hadd; intros [Hxl Hxr] [Hyl Hyr]; split.
  - rewrite length_map2; congruence.
  - apply Forall_map2; auto.
    intros r1 r2 [H1 H1'] [H2 H2']; split.
    + rewrite length_map2; congruence.
    + apply Forall_map2; auto.
      intros c1 c2 Hc1 Hc2; rewrite length_map2; congruence.
Qed.

Lemma hadd_zeros_l a b h : shape a b h -> hadd (zeros a b) h = h.
Proof.
  unfold shape, hadd, zeros; intros [Hl Hr]; subst a.
  apply map2_repeat_l with (P := fun row => List.length row = b /\
      Forall (fun cell => List.length cell = 3%nat) row); auto.
  intros row [Hrl Hrc]; subst b.
  apply map2_repeat_l with (P := fun cell => List.length cell = 3%nat); auto.
  intros cell Hc.
  destruct cell as [|x [|y [|z [|w cell]]]]; try discriminate.
  simpl; rewrite !Rplus_0_l; reflexivity.
Qed.

Lemma hadd_comm x y : hadd x y = hadd y x.
Proof.
  unfold hadd; apply map2_comm; intros r1 r2.
  apply map2_comm; intros c1 c2.
  apply map2_comm; intros u v; apply Rplus_comm.
Qed.

Lemma hadd_assoc x y z : hadd (hadd x y) z = hadd x (hadd y z).
Proof.
  unfold hadd; apply map2_assoc; intros r1 r2 r3.
  apply map2_assoc; intros c1 c2 c3.
  apply map2_assoc; intros u v w; apply Rplus_assoc.
Qed.

Lemma hadd_zeros_r a b h : shape a b h -> hadd h (zeros a b) = h.
Proof. intros H; rewrite hadd_comm; apply hadd_zeros_l; exact H. Qed.

Lemma add_at_hadd x y i j k v :
  add_at (hadd x y) i j k v = hadd (add_at x i j k v) y.
Proof.
  unfold add_at, hadd; apply upd_map2; intros r1 r2.
  apply upd_map2; intros c1 c2.
  apply upd_map2; intros u w; lra.
Qed.

(** ** Entries *)

Lemma nth_repeat_lt {A : Type} (x d : A) n i :
  nth i (repeat x n) d = if Nat.ltb i n then x else d.
Proof.
  revert i; induction n as [|n IH]; intros [|i]; simpl; auto.
Qed.

Lemma hget_zeros a b i j k : hget (zeros a b) i j k = 0.
Proof.
  unfold hget, zeros.
  rewrite nth_repeat_lt; destruct (Nat.ltb i a).
  - rewrite nth_repeat_lt; destruct (Nat.ltb j b).
    + rewrite nth_repeat_lt; destruct (Nat.ltb k 3); reflexivity.
    + destruct k; reflexivity.
  - destruct j, k; reflexivity.
Qed.

Lemma shape_row a b h i :
  shape a b h -> (i < a)%nat ->
  List.length (nth i h []) = b /\ Forall cell_ok (nth i h []).
Proof.
  intros [Hl Hr] Hi.
  rewrite Forall_forall in Hr; apply Hr.
  apply nth_In; lia.
Qed.

Lemma shape_row_out a b h i : shape a b h -> (a <= i)%nat -> nth i h [] = [].
Proof. intros [Hl _] Hi; apply nth_overflow; lia. Qed.

Lemma shape_cell a b h i j :
  shape a b h -> (i < a)%nat -> (j < b)%nat ->
  List.length (nth j (nth i h []) []) = 3%nat.
Proof.
  intros Hs Hi Hj.
  destruct (shape_row a b h i Hs Hi) as [Hl Hc].
  rewrite Forall_forall in Hc; apply Hc.
  apply nth_In; lia.
Qed.

Lemma shape_cell_len a b x y i j :
  shape a b x -> shape a b y ->
  List.length (nth j (nth i x []) []) = List.length (nth j (nth i y []) []).
Proof.
  intros Hx Hy.
  destruct (Nat.lt_ge_cases i a) as [Hi|Hi].
  - destruct (Nat.lt_ge_cases j b) as [Hj|Hj].
    + rewrite (shape_cell a b x i j), (shape_cell a b y i j); auto.
    + destruct (shape_row a b x i Hx Hi) as [Hlx _].
      destruct (shape_row a b y i Hy Hi) as [Hly _].
      rewrite !nth_overflow; auto; lia.
  - rewrite (shape_row_out a b x i), (shape_row_out a b y i); auto.
Qed.

Lemma shape_row_len a b x y i :
  shape a b x -> shape a b y ->
  List.length (nth i x []) = List.length (nth i y []).
Proof.
  intros Hx Hy.
  destruct (Nat.lt_ge_cases i a) as [Hi|Hi].
  - destruct (shape_row a b x i Hx Hi) as [Hlx _].
    destruct (shape_row a b y i Hy Hi) as [Hly _]; congruence.
  - rewrite (shape_row_out a b x i), (shape_row_out a b y i); auto.
Qed.

Lemma hget_hadd a b x y i j k :
  shape a b x -> shape a b y ->
  hget (hadd x y) i j k = hget x i j k + hget y i j k.
Proof.
  intros Hx Hy; unfold hget, hadd.
  rewrite nth_map2; [|reflexivity|destruct Hx, Hy; congruence].
  rewrite nth_map2; [|reflexivity|apply (shape_row_len a b); assumption].
  rewrite nth_map2; [reflexivity|lra|apply (shape_cell_len a b); assumption].
Qed.

Lemma hget_add_at a b h i j k v i' j' k' :
  shape a b h -> (i < a)%nat -> (j < b)%nat -> (k < 3)%nat ->
  hget (add_at h i j k v) i' j' k' =
  hget h i' j' k' +
  (if Nat.eqb i i' && Nat.eqb j j' && Nat.eqb k k' then v else 0).
Proof.
  intros Hs Hi Hj Hk; unfold hget, add_at.
  rewrite nth_upd by reflexivity.
  destruct (Nat.eqb_spec i i') as [<-|Hii]; simpl; [|lra].
  rewrite nth_upd by reflexivity.
  destruct (Nat.eqb_spec j j') as [<-|Hjj]; simpl; [|lra].
  rewrite nth_upd_cell, (shape_cell a b h i j Hs Hi Hj).
  destruct (Nat.eqb_spec k k') as [<-|Hkk]; simpl; [|lra].
  destruct (Nat.ltb_spec k 3); [reflexivity|lia].
Qed.

Lemma shape_add_particle a b h i j v1 v2 :
  shape a b h -> shape a b (add_particle h i j v1 v2).
Proof. intros H; unfold add_particle; auto using shape_add_at. Qed.

Lemma hget_add_particle a b h i j v1 v2 i' j' k' :
  shape a b h -> (i < a)%nat -> (j < b)%nat ->
  hget (add_particle h i j v1 v2) i' j' k' =
  hget h i' j' k' + particle_entry i j v1 v2 i' j' k'.
Proof.
  intros Hs Hi Hj; unfold add_particle, particle_entry.
  rewrite (hget_add_at a b), (hget_add_at a b), (hget_add_at a b);
    auto using shape_add_at; unfold dN_idx, v1_idx, v2_idx; try lia.
  destruct (Nat.eqb i i'), (Nat.eqb j j'); simpl; try lra.
  destruct k' as [|[|[|[|k']]]]; simpl; lra.
Qed.

Lemma add_particle_hadd x y i j v1 v2 :
  add_particle (hadd x y) i j v1 v2 = hadd (add_particle x i j v1 v2) y.
Proof. unfold add_particle; rewrite !add_at_hadd; reflexivity. Qed.

(** ** Flow moments *)

Lemma pT2_pos px py : px ^ 2 + py ^ 2 <> 0 -> 0 < px ^ 2 + py ^ 2.
Proof. intros H; nra. Qed.

Lemma v1_bound px py :
  px ^ 2 + py ^ 2 <> 0 -> Rabs (px / sqrt (px ^ 2 + py ^ 2)) <= 1.
Proof.
  intros H; pose proof (pT2_pos px py H) as Hpos.
  assert (Hs : 0 < sqrt (px ^ 2 + py ^ 2)) by (apply sqrt_lt_R0; exact Hpos).
  assert (Hle : Rabs px <= sqrt (px ^ 2 + py ^ 2)).
  { rewrite <- sqrt_Rsqr_abs; apply sqrt_le_1_alt; unfold Rsqr; nra. }
  unfold Rdiv; rewrite Rabs_mult, Rabs_inv, (Rabs_pos_eq (sqrt _)) by lra.
  apply (Rmult_le_reg_r (sqrt (px ^ 2 + py ^ 2))); [exact Hs|].
  rewrite Rmult_assoc, Rinv_l by lra; lra.
Qed.

Lemma v2_bound px py :
  px ^ 2 + py ^ 2 <> 0 -> Rabs ((px ^ 2 - py ^ 2) / (px ^ 2 + py ^ 2)) <= 1.
Proof.
  intros H; pose proof (pT2_pos px py H) as Hpos.
  unfold Rdiv; rewrite Rabs_mult, Rabs_inv, (Rabs_pos_eq (px ^ 2 + py ^ 2)) by lra.
  apply (Rmult_le_reg_r (px ^ 2 + py ^ 2)); [exact Hpos|].
  rewrite Rmult_assoc, Rinv_l by lra.
  assert (Rabs (px ^ 2 - py ^ 2) <= px ^ 2 + py ^ 2) by (apply Rabs_le; nra).
  lra.
Qed.

(** The guards of lines 170 and 174 keep every operation of lines 172-178
    inside its domain: no division by zero, a positive argument for
    [math.log], a strictly positive [pT]. *)
Lemma guarded_operations p0 px py pz :
  0 < (p0 - pz) * (p0 + pz) -> px ^ 2 + py ^ 2 <> 0 ->
  p0 - pz <> 0 /\ 0 < (p0 + pz) / (p0 - pz) /\
  0 < px ^ 2 + py ^ 2 /\ 0 < sqrt (px ^ 2 + py ^ 2).
Proof.
  intros Hm HpT; pose proof (pT2_pos px py HpT) as Hpos.
  assert (Hne : p0 - pz <> 0) by (intros E; rewrite E in Hm; lra).
  split_all; auto.
  - replace ((p0 + pz) / (p0 - pz))
      with ((p0 - pz) * (p0 + pz) * (/ (p0 - pz)) ^ 2) by (field; exact Hne).
    apply Rmult_lt_0_compat; [exact Hm|].
    pose proof (Rinv_neq_0_compat _ Hne) as Hinv.
    nra.
  - apply sqrt_lt_R0; exact Hpos.
Qed.

(** ** Booleans on reals *)

Lemma Rleb_true x y : Rleb x y = true <-> x <= y.
Proof. unfold Rleb; destruct (Rle_dec x y); split; intros; auto; discriminate. Qed.

Lemma Rleb_false x y : Rleb x y = false <-> y < x.
Proof.
  unfold Rleb; destruct (Rle_dec x y); split; intros; auto;
    try discriminate; lra.
Qed.

Lemma Rltb_true x y : Rltb x y = true <-> x < y.
Proof. unfold Rltb; destruct (Rlt_dec x y); split; intros; auto; discriminate. Qed.

Lemma Rltb_false x y : Rltb x y = false <-> y <= x.
Proof.
  unfold Rltb; destruct (Rlt_dec x y); split; intros; auto;
    try discriminate; lra.
Qed.

Lemma Reqb_true x y : Reqb x y = true <-> x = y.
Proof. unfold Reqb; destruct (Req_dec_T x y); split; intros; auto; discriminate. Qed.

Lemma Reqb_false x y : Reqb x y = false <-> x <> y.
Proof.
  unfold Reqb; destruct (Req_dec_T x y); split; intros; auto;
    try discriminate; contradiction.
Qed.

(** ** Counters *)

Lemma wrap64_range z : int64 (wrap64 z).
Proof.
  unfold int64, wrap64.
  pose proof (Z.mod_pos_bound (z + 2 ^ 63) (2 ^ 64)) as H.
  lia.
Qed.

Lemma wrap64_id z : int64 z -> wrap64 z = z.
Proof.
  unfold int64, wrap64; intros H.
  rewrite Z.mod_small; lia.
Qed.

(** ** The registry *)

Lemma hadron_index_lt k i name : lookup hadrons k = Some (i, name) -> (i < nh)%nat.
Proof.
  unfold hadrons, nh; simpl.
  repeat match goal with
         | |- context [String.eqb ?a ?b] => destruct (String.eqb a b)
         end;
    intros H; inversion H; subst; lia.
Qed.

(** ** Invariants of the histograms *)

Lemma bounded_zeros a b : bounded (zeros a b).
Proof.
  intros i j; rewrite !hget_zeros, Rabs_R0; lra.
Qed.

Lemma wf_zeros a b : wf a b (zeros a b).
Proof. split; [apply shape_zeros|apply bounded_zeros]. Qed.

Lemma wf_hadd a b x y : wf a b x -> wf a b y -> wf a b (hadd x y).
Proof.
  intros [Hsx Hbx] [Hsy Hby]; split; [apply shape_hadd; assumption|].
  intros i j; rewrite !(hget_hadd a b) by assumption.
  destruct (Hbx i j) as [H1 H2], (Hby i j) as [H3 H4].
  split; (eapply Rle_trans; [apply Rabs_triang|lra]).
Qed.

Lemma wf_add_particle a b h i j v1 v2 :
  wf a b h -> (i < a)%nat -> (j < b)%nat -> Rabs v1 <= 1 -> Rabs v2 <= 1 ->
  wf a b (add_particle h i j v1 v2).
Proof.
  intros [Hs Hb] Hi Hj H1 H2; split; [apply shape_add_particle; exact Hs|].
  intros i' j'; rewrite !(hget_add_particle a b) by assumption.
  destruct (Hb i' j') as [Hb1 Hb2]; unfold particle_entry.
  destruct (Nat.eqb i i' && Nat.eqb j j'); simpl.
  - split; (eapply Rle_trans; [apply Rabs_triang|lra]).
  - rewrite !Rplus_0_r; auto.
Qed.

(** * Properties of the program *)

Section Properties.

Variable float64 : string -> option R.
Variables ny npT : nat.
Variables y_arr pT_arr : list R.

Lemma initial_state_ok : state_ok ny npT (initial_state ny npT).
Proof.
  unfold state_ok, initial_state; simpl.
  split_all; try apply wf_zeros. unfold int64; lia.
Qed.

Lemma initial_totals_ok : totals_ok ny npT (initial_totals ny npT).
Proof.
  unfold totals_ok, initial_totals; simpl.
  split_all; try apply wf_zeros. unfold int64; lia.
Qed.

Lemma commit_ok st : state_ok ny npT st -> state_ok ny npT (commit ny npT st).
Proof.
  intros (Hye & Hpe & Hyf & Hpf & Hn); unfold state_ok, commit; simpl.
  split_all; auto using wf_zeros, wf_hadd.
  apply wrap64_range.
Qed.

Lemma accept_y_range ridx pT :
  accept_y ny ridx pT = true ->
  (Z.to_nat ridx < ny)%nat /\ (0 <= ridx < Z.of_nat ny)%Z /\
  pT_min_cut <= pT < pT_max_cut.
Proof.
  unfold accept_y; rewrite !andb_true_iff.
  rewrite Z.leb_le, Z.ltb_lt, Rleb_true, Rltb_true; intros [[[H1 H2] H3] H4].
  repeat split; auto; lia.
Qed.

Lemma accept_pT_range pidx rapidity :
  accept_pT npT pidx rapidity = true ->
  (Z.to_nat pidx < npT)%nat /\ (0 <= pidx < Z.of_nat npT)%Z /\
  Rabs rapidity < rap_cut.
Proof.
  unfold accept_pT; rewrite !andb_true_iff.
  rewrite Z.leb_le, Z.ltb_lt, Rltb_true; intros [[H1 H2] H3].
  repeat split; auto; lia.
Qed.

Lemma fill_ok ys ps dy dpT st h p0 px py pz :
  state_ok ny npT st -> (h < nh)%nat -> state_ok ny npT (fill ny npT ys ps dy dpT st h p0 px py pz).
Proof.
  intros Hst Hh; pose proof Hst as (Hye & Hpe & Hyf & Hpf & Hn); unfold fill.
  destruct (Rleb _ 0); [exact Hst|].
  destruct (Reqb (px ^ 2 + py ^ 2) 0) eqn:HpT; [exact Hst|].
  apply Reqb_false in HpT.
  unfold state_ok; fields; split_all; auto.
  - destruct (accept_y _ _ _) eqn:Hacc; [|exact Hye].
    apply accept_y_range in Hacc as (Hj & _).
    apply wf_add_particle; auto using v1_bound, v2_bound.
  - destruct (accept_pT _ _ _) eqn:Hacc; [|exact Hpe].
    apply accept_pT_range in Hacc as (Hj & _).
    apply wf_add_particle; auto using v1_bound, v2_bound.
Qed.

(** Case analysis on the outcome of a bind. *)
Lemma bind_Return {A B : Type} (m : outcome A) (k : A -> outcome B) b :
  bind m k = Return b -> exists a, m = Return a /\ k a = Return b.
Proof. destruct m; simpl; intros H; try discriminate; eauto. Qed.

Lemma comment_line_ok fmt st line st' :
  state_ok ny npT st -> comment_line ny npT fmt st line = Return st' -> state_ok ny npT st'.
Proof.
  intros Hst; unfold comment_line; intros H.
  apply bind_Return in H as (l1 & _ & H).
  destruct (str_eq l1 _); [|inversion H; subst; exact Hst].
  apply bind_Return in H as (l3 & _ & H).
  destruct (str_eq l3 (event_start_identifier fmt)).
  - inversion H; subst; exact Hst.
  - destruct (str_eq l3 _); [|discriminate].
    destruct (unfinished_event st); [|discriminate].
    inversion H; subst; apply commit_ok; exact Hst.
Qed.

Lemma particle_line_ok fmt ys ps dy dpT st line st' :
  state_ok ny npT st ->
  particle_line float64 ny npT fmt ys ps dy dpT st line = Return st' ->
  state_ok ny npT st'.
Proof.
  intros Hst; unfold particle_line; intros H.
  apply bind_Return in H as (pdg & _ & H).
  destruct (lookup hadrons pdg) as [[h name]|] eqn:Hh;
    [|inversion H; subst; exact Hst].
  apply bind_Return in H as (txyz & _ & H).
  apply bind_Return in H as ([[[p0 px] py] pz] & _ & H).
  inversion H; subst; apply fill_ok; [exact Hst|].
  eapply hadron_index_lt; exact Hh.
Qed.

Lemma process_line_ok fmt ys ps dy dpT st iline st' :
  state_ok ny npT st ->
  process_line float64 ny npT fmt ys ps dy dpT st iline = Return st' ->
  state_ok ny npT st'.
Proof.
  intros Hst; unfold process_line; intros H.
  apply bind_Return in H as (l0 & _ & H).
  apply bind_Return in H as (c0 & _ & H).
  destruct (chr_eq c0 _);
    eauto using comment_line_ok, particle_line_ok.
Qed.

Lemma read_lines_ok fmt ys ps dy dpT ifile : forall st st',
  state_ok ny npT st ->
  read_lines float64 ny npT fmt ys ps dy dpT st ifile = Return st' ->
  state_ok ny npT st'.
Proof.
  induction ifile as [|iline rest IH]; simpl; intros st st' Hst H.
  - inversion H; subst; exact Hst.
  - apply bind_Return in H as (st1 & H1 & H).
    eapply IH; [|exact H]. eapply process_line_ok; eauto.
Qed.

Lemma read_lines_app fmt ys ps dy dpT pre : forall st post,
  read_lines float64 ny npT fmt ys ps dy dpT st (pre ++ post) =
  bind (read_lines float64 ny npT fmt ys ps dy dpT st pre)
       (fun st' => read_lines float64 ny npT fmt ys ps dy dpT st' post).
Proof.
  induction pre as [|iline pre IH]; simpl; intros st post; [reflexivity|].
  destruct (process_line _ _ _ _ _ _ _ _ _ _); simpl; auto.
Qed.

(** What [extract_data_oscar] returns. *)
Lemma extract_data_oscar_Return fs fmt infile ya pa dy dpT r :
  extract_data_oscar float64 ny npT fs fmt infile ya pa dy dpT = Return r ->
  exists y0 pT0 ifile st,
    index ya 0 = Return y0 /\ index pa 0 = Return pT0 /\
    fs infile = Some ifile /\
    read_lines float64 ny npT fmt (y0 - dy / 2) (pT0 - dpT / 2) dy dpT
      (initial_state ny npT) ifile = Return st /\
    r = (Some (events_in_file st), y_spectra_file st, pT_spectra_file st).
Proof.
  unfold extract_data_oscar; intros H.
  apply bind_Return in H as (y0 & Hy & H).
  apply bind_Return in H as (pT0 & Hp & H).
  destruct (fs infile) as [ifile|]; [|discriminate].
  apply bind_Return in H as (st & Hst & H).
  inversion H; subst; exists y0, pT0, ifile, st; auto.
Qed.

Lemma extract_data_oscar_ok fs fmt infile ya pa dy dpT new_events new_y new_pT :
  extract_data_oscar float64 ny npT fs fmt infile ya pa dy dpT
    = Return (new_events, new_y, new_pT) ->
  exists n, new_events = Some n /\ int64 n /\ wf nh ny new_y /\ wf nh npT new_pT.
Proof.
  intros H.
  apply extract_data_oscar_Return in H as (y0 & pT0 & ifile & st & _ & _ & _ & Hr & E).
  inversion E; subst.
  apply read_lines_ok in Hr; [|apply initial_state_ok].
  destruct Hr as (_ & _ & Hyf & Hpf & Hn).
  exists (events_in_file st); auto.
Qed.

Lemma run_files_app fs fmt pre : forall tot post,
  run_files float64 ny npT y_arr pT_arr fs fmt tot (pre ++ post) =
  bind (run_files float64 ny npT y_arr pT_arr fs fmt tot pre)
       (fun tot' => run_files float64 ny npT y_arr pT_arr fs fmt tot' post).
Proof.
  induction pre as [|infile pre IH]; simpl; intros tot post; [reflexivity|].
  destruct (extract_data_oscar _ _ _ _ _ _ _ _ _ _) as [[[n y] p]| |];
    simpl; auto.
  destruct n as [n|]; auto.
  destruct (n =? 0)%Z; auto.
Qed.

Lemma run_files_ok fs fmt inputs : forall tot tot',
  totals_ok ny npT tot ->
  run_files float64 ny npT y_arr pT_arr fs fmt tot inputs = Return tot' ->
  totals_ok ny npT tot'.
Proof.
  induction inputs as [|infile rest IH]; simpl; intros tot tot' Htot H.
  - inversion H; subst; exact Htot.
  - apply bind_Return in H as ([[n y] p] & Hx & H).
    apply extract_data_oscar_ok in Hx as (m & -> & Hm & Hy & Hp).
    destruct (m =? 0)%Z; [eapply IH; eauto|].
    eapply IH; [|exact H].
    destruct Htot as (Hty & Htp & Htn); unfold totals_ok; simpl.
    split_all; auto using wf_hadd. apply wrap64_range.
Qed.

(** ** Kinds of lines *)

Lemma process_line_particle fmt ys ps dy dpT st iline :
  is_particle_line iline = true ->
  process_line float64 ny npT fmt ys ps dy dpT st iline =
  particle_line float64 ny npT fmt ys ps dy dpT st (split iline).
Proof.
  unfold is_particle_line, process_line.
  destruct (split iline) as [|[|c l0] line]; try discriminate.
  simpl; destruct (chr_eq c "#"); [discriminate|reflexivity].
Qed.

Lemma process_line_comment fmt ys ps dy dpT st iline :
  is_comment iline = true ->
  process_line float64 ny npT fmt ys ps dy dpT st iline =
  comment_line ny npT fmt st (split iline).
Proof.
  unfold is_comment, process_line.
  destruct (split iline) as [|[|c l0] line]; try discriminate.
  simpl; intros ->; reflexivity.
Qed.

Lemma end_marker_tokens fmt iline :
  is_end_marker fmt iline = true ->
  is_comment iline = true /\
  exists l1 l3,
    nth_error (split iline) 1 = Some l1 /\ nth_error (split iline) 3 = Some l3 /\
    str_eq l1 (event_name_identifier fmt) = true /\
    str_eq l3 (event_start_identifier fmt) = false /\
    str_eq l3 (event_end_identifier fmt) = true.
Proof.
  unfold is_end_marker, is_event_label.
  destruct (is_comment iline); [|discriminate].
  destruct (nth_error (split iline) 1) as [l1|]; [|discriminate].
  destruct (nth_error (split iline) 3) as [l3|]; [|discriminate].
  destruct (str_eq l1 _) eqn:E1; [|discriminate].
  destruct (str_eq l3 (event_start_identifier fmt)) eqn:E2; [discriminate|].
  destruct (str_eq l3 (event_end_identifier fmt)) eqn:E3; [|discriminate].
  intros _; split; [reflexivity|exists l1, l3; split_all; auto].
Qed.

Lemma end_marker_step fmt ys ps dy dpT st iline :
  is_end_marker fmt iline = true ->
  process_line float64 ny npT fmt ys ps dy dpT st iline =
  if unfinished_event st then Return (commit ny npT st) else Exit 1.
Proof.
  intros H.
  apply end_marker_tokens in H as (Hc & l1 & l3 & H1 & H3 & E1 & E2 & E3).
  rewrite (process_line_comment _ _ _ _ _ _ _ Hc); unfold comment_line, index.
  rewrite H1, H3; unfold bind; rewrite E1, E2, E3; reflexivity.
Qed.

Lemma end_marker_outside fmt ys ps dy dpT st iline :
  is_end_marker fmt iline = true -> unfinished_event st = false ->
  process_line float64 ny npT fmt ys ps dy dpT st iline = Exit 1.
Proof. intros H Hu; rewrite end_marker_step, Hu; auto. Qed.

Lemma fill_with_flag ys ps dy dpT b st h p0 px py pz :
  fill ny npT ys ps dy dpT (with_flag b st) h p0 px py pz =
  with_flag b (fill ny npT ys ps dy dpT st h p0 px py pz).
Proof.
  unfold fill.
  destruct (Rleb _ 0); [reflexivity|].
  destruct (Reqb _ 0); reflexivity.
Qed.

(** ** Degenerate momenta *)


(** ** Lines outside an event *)

Lemma index_cases {A : Type} (l : list A) i :
  (exists a, index l i = Return a) \/ index l i = Raise IndexError.
Proof. unfold index; destruct (nth_error l i); eauto. Qed.

Lemma unpack4_cases l :
  (exists q, unpack4 float64 l = Return q) \/ unpack4 float64 l = Raise ValueError.
Proof.
  unfold unpack4.
  destruct (float64_list float64 l) as [[|a [|b [|c [|d [|e r]]]]]|]; eauto.
Qed.


(** ** Exits *)

Lemma comment_line_Exit fmt st line s :
  comment_line ny npT fmt st line = Exit s -> s = 1%Z.
Proof.
  unfold comment_line.
  destruct (index_cases line 1) as [[l1 ->]| ->]; cbn [bind]; [|discriminate].
  destruct (str_eq l1 _); [|discriminate].
  destruct (index_cases line 3) as [[l3 ->]| ->]; cbn [bind]; [|discriminate].
  destruct (str_eq l3 (event_start_identifier fmt)); [discriminate|].
  destruct (str_eq l3 _); [destruct (unfinished_event st)|];
    intros H; inversion H; reflexivity.
Qed.

Lemma particle_line_Exit fmt ys ps dy dpT st line s :
  particle_line float64 ny npT fmt ys ps dy dpT st line <> Exit s.
Proof.
  unfold particle_line.
  destruct (index_cases line (pdg_idx fmt)) as [[code ->]| ->];
    cbn [bind]; [|discriminate].
  destruct (lookup hadrons code) as [[h name]|]; [|discriminate].
  destruct (unpack4_cases (slice line 0 4)) as [[txyz ->]| ->];
    cbn [bind]; [|discriminate].
  destruct (unpack4_cases (slice line (mom_start fmt) (mom_end fmt)))
    as [[[[[p0 px] py] pz] ->]| ->]; cbn [bind]; discriminate.
Qed.

Lemma process_line_Exit fmt ys ps dy dpT st iline s :
  process_line float64 ny npT fmt ys ps dy dpT st iline = Exit s -> s = 1%Z.
Proof.
  unfold process_line.
  destruct (index_cases (split iline) 0) as [[l0 ->]| ->];
    cbn [bind]; [|discriminate].
  destruct l0 as [|c0 l0]; cbn [first_char bind]; [discriminate|].
  destruct (chr_eq c0 "#"); [apply comment_line_Exit|].
  intros H; apply particle_line_Exit in H; contradiction.
Qed.

Lemma read_lines_Exit fmt ys ps dy dpT ifile : forall st s,
  read_lines float64 ny npT fmt ys ps dy dpT st ifile = Exit s -> s = 1%Z.
Proof.
  induction ifile as [|iline rest IH]; cbn [read_lines]; intros st s H;
    [discriminate|].
  destruct (process_line _ _ _ _ _ _ _ _ _ _) as [st'|s'|e] eqn:E;
    cbn [bind] in H; try discriminate.
  - eapply IH; exact H.
  - inversion H; subst; eapply process_line_Exit; exact E.
Qed.

Lemma extract_data_oscar_Exit fs fmt infile ya pa dy dpT s :
  extract_data_oscar float64 ny npT fs fmt infile ya pa dy dpT = Exit s ->
  s = 1%Z.
Proof.
  unfold extract_data_oscar.
  destruct (index_cases ya 0) as [[y0 ->]| ->]; cbn [bind]; [|discriminate].
  destruct (index_cases pa 0) as [[pT0 ->]| ->]; cbn [bind]; [|discriminate].
  destruct (fs infile) as [ifile|]; [|discriminate].
  destruct (read_lines _ _ _ _ _ _ _ _ _ _) as [st|s'|e] eqn:E;
    cbn [bind]; try discriminate.
  intros H; inversion H; subst; eapply read_lines_Exit; exact E.
Qed.

Lemma run_files_Exit fs fmt inputs : forall tot s,
  run_files float64 ny npT y_arr pT_arr fs fmt tot inputs = Exit s -> s = 1%Z.
Proof.
  induction inputs as [|infile rest IH]; cbn [run_files]; intros tot s H;
    [discriminate|].
  destruct (extract_data_oscar _ _ _ _ _ _ _ _ _ _) as [[[n y] p]|s'|e] eqn:E;
    cbn [bind] in H; try discriminate.
  - destruct n as [n|]; [destruct (n =? 0)%Z|]; eapply IH; exact H.
  - inversion H; subst; eapply extract_data_oscar_Exit; exact E.
Qed.

(** C4.  A file in which an end-of-event marker is met while the tracker
    is outside an event (the lines before it were read without error and
    left [unfinished_event] false) makes [extract_data_oscar] leave through
    [sys.exit(1)], and the whole run ends there with status 1: line 236 is
    not reached and nothing is written. *)
Theorem end_without_start_is_fatal
    type fmt fs before infile rest pre l post y0 pT0 st tot :
  select_format type = Some fmt ->
  index y_arr 0 = Return y0 -> index pT_arr 0 = Return pT0 ->
  fs infile = Some (pre ++ l :: post)%list ->
  read_lines float64 ny npT fmt (y0 - dy / 2) (pT0 - dpT / 2) dy dpT
    (initial_state ny npT) pre = Return st ->
  unfinished_event st = false ->
  is_end_marker fmt l = true ->
  run_files float64 ny npT y_arr pT_arr fs fmt (initial_totals ny npT) before
    = Return tot ->
  extract_data_oscar float64 ny npT fs fmt infile y_arr pT_arr dy dpT = Exit 1 /\
  main float64 ny npT y_arr pT_arr type fs (before ++ infile :: rest)%list = Exit 1.
Proof.
  intros Hfmt Hy Hp Hfs Hpre Hu Hend Hbefore.
  assert (Hx : extract_data_oscar float64 ny npT fs fmt infile y_arr pT_arr
                 dy dpT = Exit 1).
  { unfold extract_data_oscar; rewrite Hy, Hp; cbn [bind]; rewrite Hfs.
    rewrite read_lines_app, Hpre; cbn [bind read_lines].
    rewrite (end_marker_outside _ _ _ _ _ _ _ Hend Hu); reflexivity. }
  split; [exact Hx|].
  unfold main; rewrite Hfmt, run_files_app, Hbefore; cbn [bind run_files].
  rewrite Hx; reflexivity.
Qed.

(** C6 (as the code has it).  Status 2 is kept for a run that read every
    file and collected no event; an unknown format and a structural error
    in a file both end the run with status 1, so the status tells run-level
    emptiness from the other two but does not tell these two apart. *)
Theorem exit_status_by_category type fs inputs :
  (main float64 ny npT y_arr pT_arr type fs inputs = Exit 2 <->
   exists fmt tot,
     select_format type = Some fmt /\
     run_files float64 ny npT y_arr pT_arr fs fmt (initial_totals ny npT) inputs
       = Return tot /\
     total_events tot = 0%Z) /\
  (select_format type = None ->
   main float64 ny npT y_arr pT_arr type fs inputs = Exit 1) /\
  (forall fmt status,
     select_format type = Some fmt ->
     run_files float64 ny npT y_arr pT_arr fs fmt (initial_totals ny npT) inputs
       = Exit status ->
     status = 1%Z /\
     main float64 ny npT y_arr pT_arr type fs inputs = Exit 1).
Proof.
  unfold main; split; [split|split].
  - destruct (select_format type) as [fmt|]; [|discriminate].
    destruct (run_files _ _ _ _ _ _ _ _ _) as [tot|s|e] eqn:E; cbn [bind].
    + destruct (total_events tot =? 0)%Z eqn:E0; [|discriminate].
      intros _; exists fmt, tot; split_all; auto; lia.
    + intros H; inversion H; subst.
      apply run_files_Exit in E; discriminate.
    + discriminate.
  - intros (fmt & tot & -> & -> & H0); cbn [bind]; rewrite H0; reflexivity.
  - intros ->; reflexivity.
  - intros fmt status Hfmt H; rewrite Hfmt, H; cbn [bind].
    apply run_files_Exit in H; subst; split; reflexivity.
Qed.

(** [extract_data_oscar] has no way to report a failure to its caller:
    when it returns, the count is an integer, never [None], so the branch
    of lines 204-206 is not taken; and an exception or exit inside it ends
    the loop over the files at that file. *)
Lemma file_failure_ends_the_run fs fmt tot infile rest :
  (forall r, extract_data_oscar float64 ny npT fs fmt infile y_arr pT_arr dy dpT
               = Return r -> fst (fst r) <> None) /\
  (forall e, extract_data_oscar float64 ny npT fs fmt infile y_arr pT_arr dy dpT
               = Raise e ->
             run_files float64 ny npT y_arr pT_arr fs fmt tot (infile :: rest)
               = Raise e) /\
  (forall s, extract_data_oscar float64 ny npT fs fmt infile y_arr pT_arr dy dpT
               = Exit s ->
             run_files float64 ny npT y_arr pT_arr fs fmt tot (infile :: rest)
               = Exit s).
Proof.
  split_all.
  - intros [[n y] p] H.
    apply extract_data_oscar_ok in H as (m & -> & _); discriminate.
  - intros e H; cbn [run_files]; rewrite H; reflexivity.
  - intros s H; cbn [run_files]; rewrite H; reflexivity.
Qed.

(** ** The binning of one particle *)

Lemma fill_eval ys ps dy dpT st h p0 px py pz rapidity pT v1 v2 ri pi :
  0 < (p0 - pz) * (p0 + pz) ->
  0.5 * ln ((p0 + pz) / (p0 - pz)) = rapidity ->
  px ^ 2 + py ^ 2 <> 0 ->
  sqrt (px ^ 2 + py ^ 2) = pT ->
  px / pT = v1 ->
  (px ^ 2 - py ^ 2) / (px ^ 2 + py ^ 2) = v2 ->
  Zfloor ((rapidity - ys) / dy) = ri ->
  Zfloor ((pT - ps) / dpT) = pi ->
  fill ny npT ys ps dy dpT st h p0 px py pz =
  {| unfinished_event := unfinished_event st;
     events_in_file := events_in_file st;
     y_spectra_event :=
       if accept_y ny ri pT
       then add_particle (y_spectra_event st) h (Z.to_nat ri) v1 v2
       else y_spectra_event st;
     pT_spectra_event :=
       if accept_pT npT pi rapidity
       then add_particle (pT_spectra_event st) h (Z.to_nat pi) v1 v2
       else pT_spectra_event st;
     y_spectra_file := y_spectra_file st;
     pT_spectra_file := pT_spectra_file st |}.
Proof.
  intros Hm <- HpT <- <- <- <- <-; unfold fill.
  rewrite (proj2 (Rleb_false _ _)) by lra.
  rewrite (proj2 (Reqb_false _ _)) by exact HpT.
  reflexivity.
Qed.

Lemma accept_y_iff ri pT :
  accept_y ny ri pT = true <->
  (0 <= ri < Z.of_nat ny)%Z /\ pT_min_cut <= pT < pT_max_cut.
Proof.
  unfold accept_y; rewrite !andb_true_iff, Z.leb_le, Z.ltb_lt, Rleb_true, Rltb_true.
  tauto.
Qed.

Lemma accept_pT_iff pi rapidity :
  accept_pT npT pi rapidity = true <->
  (0 <= pi < Z.of_nat npT)%Z /\ Rabs rapidity < rap_cut.
Proof.
  unfold accept_pT; rewrite !andb_true_iff, Z.leb_le, Z.ltb_lt, Rltb_true.
  tauto.
Qed.

Lemma accept_y_false ri pT :
  ~ ((0 <= ri < Z.of_nat ny)%Z /\ pT_min_cut <= pT < pT_max_cut) ->
  accept_y ny ri pT = false.
Proof.
  intros H; destruct (accept_y ny ri pT) eqn:E; [|reflexivity].
  apply accept_y_iff in E; contradiction.
Qed.

Lemma accept_pT_false pi rapidity :
  ~ ((0 <= pi < Z.of_nat npT)%Z /\ Rabs rapidity < rap_cut) ->
  accept_pT npT pi rapidity = false.
Proof.
  intros H; destruct (accept_pT npT pi rapidity) eqn:E; [|reflexivity].
  apply accept_pT_iff in E; contradiction.
Qed.

Lemma add_particle_adds a b h i j v1 v2 :
  shape a b h -> (i < a)%nat -> (j < b)%nat ->
  adds_particle h (add_particle h i j v1 v2) i j v1 v2.
Proof.
  intros Hs Hi Hj; unfold adds_particle; split_all;
    try (rewrite (hget_add_particle a b) by assumption; unfold particle_entry;
         rewrite !Nat.eqb_refl; reflexivity).
  intros i' j' k' Hne; rewrite (hget_add_particle a b) by assumption.
  unfold particle_entry.
  destruct (Nat.eqb_spec i i'), (Nat.eqb_spec j j'); cbn [andb]; try lra.
  subst; destruct Hne; contradiction.
Qed.

(** The particle line of a registered species with momenta that can be
    read and pass the tests of lines 170 and 174. *)
Lemma valid_particle_line fmt ys ps dy dpT st iline code h name t x y z p0 px py pz :
  is_particle_line iline = true ->
  index (split iline) (pdg_idx fmt) = Return code ->
  lookup hadrons code = Some (h, name) ->
  unpack4 float64 (slice (split iline) 0 4) = Return (t, x, y, z) ->
  unpack4 float64 (slice (split iline) (mom_start fmt) (mom_end fmt))
    = Return (p0, px, py, pz) ->
  process_line float64 ny npT fmt ys ps dy dpT st iline =
  Return (fill ny npT ys ps dy dpT st h p0 px py pz).
Proof.
  intros Hp Hc Hh Ht Hm.
  rewrite (process_line_particle _ _ _ _ _ _ _ Hp); unfold particle_line.
  rewrite Hc; cbn [bind]; rewrite Hh, Ht, Hm; reflexivity.
Qed.

(** What [fill] does to the two event histograms. *)
Lemma fill_acceptance ys ps dy dpT st h p0 px py pz :
  state_ok ny npT st -> (h < nh)%nat ->
  0 < (p0 - pz) * (p0 + pz) -> px ^ 2 + py ^ 2 <> 0 ->
  let rapidity := 0.5 * ln ((p0 + pz) / (p0 - pz)) in
  let pT := sqrt (px ^ 2 + py ^ 2) in
  let v1 := px / pT in
  let v2 := (px ^ 2 - py ^ 2) / (px ^ 2 + py ^ 2) in
  let rapidity_index := Zfloor ((rapidity - ys) / dy) in
  let pT_index := Zfloor ((pT - ps) / dpT) in
  let st' := fill ny npT ys ps dy dpT st h p0 px py pz in
  ((0 <= rapidity_index < Z.of_nat ny)%Z /\ pT_min_cut <= pT < pT_max_cut ->
   adds_particle (y_spectra_event st) (y_spectra_event st')
                 h (Z.to_nat rapidity_index) v1 v2) /\
  (~ ((0 <= rapidity_index < Z.of_nat ny)%Z /\ pT_min_cut <= pT < pT_max_cut) ->
   y_spectra_event st' = y_spectra_event st) /\
  ((0 <= pT_index < Z.of_nat npT)%Z /\ Rabs rapidity < rap_cut ->
   adds_particle (pT_spectra_event st) (pT_spectra_event st')
                 h (Z.to_nat pT_index) v1 v2) /\
  (~ ((0 <= pT_index < Z.of_nat npT)%Z /\ Rabs rapidity < rap_cut) ->
   pT_spectra_event st' = pT_spectra_event st) /\
  y_spectra_file st' = y_spectra_file st /\
  pT_spectra_file st' = pT_spectra_file st.
Proof.
  intros (Hye & Hpe & _) Hh Hm HpT rapidity pT v1 v2 ri pi st'.
  unfold st'; rewrite (fill_eval ys ps dy dpT st h p0 px py pz rapidity pT v1 v2 ri pi)
    by auto; fields.
  split_all; auto.
  - intros Hacc; pose proof Hacc as Hacc'.
    apply accept_y_iff in Hacc; rewrite Hacc.
    apply (add_particle_adds nh ny); [apply Hye|exact Hh|lia].
  - intros Hrej; destruct (accept_y ny ri pT) eqn:E; [|reflexivity].
    apply accept_y_iff in E; contradiction.
  - intros Hacc; pose proof Hacc as Hacc'.
    apply accept_pT_iff in Hacc; rewrite Hacc.
    apply (add_particle_adds nh npT); [apply Hpe|exact Hh|lia].
  - intros Hrej; destruct (accept_pT npT pi rapidity) eqn:E; [|reflexivity].
    apply accept_pT_iff in E; contradiction.
Qed.

End Properties.

(** * The sample lines on the grid of the script *)

Lemma script_y_start : index script_y_arr 0 = Return (-5 + 0 * 0.2).
Proof. reflexivity. Qed.

Lemma script_pT_start : index script_pT_arr 0 = Return (0.05 + 0 * 0.1).
Proof. reflexivity. Qed.

Lemma pion_line_reads ys ps dy dpT st :
  process_line integer_literal script_ny script_npT SMASH ys ps dy dpT st pion_line
  = Return (fill script_ny script_npT ys ps dy dpT st 0 1 (-1) 0 0).
Proof. reflexivity. Qed.


Lemma script_edges : script_ys = -5.1 /\ script_ps = 0.
Proof. unfold script_ys, script_ps, dy, dpT, rap_resolution, pT_resolution; lra. Qed.

(** Decide the tests of lines 182 and 189 on numbers. *)
Ltac cuts := unfold pT_min_cut, pT_max_cut, rap_cut, script_ny, script_npT.

Ltac accepted :=
  first [ rewrite (proj2 (accept_y_iff _ _ _)) by (cuts; split; [lia|lra])
        | rewrite (proj2 (accept_pT_iff _ _ _))
            by (cuts; split; [lia|rewrite ?Rabs_R0; lra]) ].

Lemma pion_fill st :
  fill script_ny script_npT script_ys script_ps dy dpT st 0 1 (-1) 0 0 =
  {| unfinished_event := unfinished_event st;
     events_in_file := events_in_file st;
     y_spectra_event := add_particle (y_spectra_event st) 0 25 (-1) 1;
     pT_spectra_event := add_particle (pT_spectra_event st) 0 10 (-1) 1;
     y_spectra_file := y_spectra_file st;
     pT_spectra_file := pT_spectra_file st |}.
Proof.
  destruct script_edges as [Hys Hps].
  rewrite (fill_eval script_ny script_npT script_ys script_ps dy dpT st
             0 1 (-1) 0 0 0 1 (-1) 1 25 10).
  - do 2 accepted; reflexivity.
  - lra.
  - replace ((1 + 0) / (1 - 0)) with 1 by lra. rewrite ln_1; lra.
  - lra.
  - replace ((-1) ^ 2 + 0 ^ 2) with 1 by lra. apply sqrt_1.
  - lra.
  - lra.
  - apply Zfloor_eq; rewrite Hys; unfold dy, rap_resolution; lra.
  - apply Zfloor_eq; rewrite Hps; unfold dpT, pT_resolution; lra.
Qed.

Ltac rejected :=
  first [ rewrite accept_y_false by (cuts; intros [HZ HR]; first [lia|lra])
        | rewrite accept_pT_false by (cuts; intros [HZ HR]; first [lia|lra]) ].

Lemma wide_fill st :
  fill script_ny script_npT script_ys script_ps dy dpT st 0 6 5 0 0 =
  {| unfinished_event := unfinished_event st;
     events_in_file := events_in_file st;
     y_spectra_event := add_particle (y_spectra_event st) 0 25 1 1;
     pT_spectra_event := pT_spectra_event st;
     y_spectra_file := y_spectra_file st;
     pT_spectra_file := pT_spectra_file st |}.
Proof.
  destruct script_edges as [Hys Hps].
  rewrite (fill_eval script_ny script_npT script_ys script_ps dy dpT st
             0 6 5 0 0 0 5 1 1 25 50).
  - accepted; rejected; reflexivity.
  - lra.
  - replace ((6 + 0) / (6 - 0)) with 1 by lra. rewrite ln_1; lra.
  - lra.
  - replace (5 ^ 2 + 0 ^ 2) with (5 * 5) by lra. apply sqrt_square; lra.
  - lra.
  - lra.
  - apply Zfloor_eq; rewrite Hys; unfold dy, rap_resolution; lra.
  - apply Zfloor_eq; rewrite Hps; unfold dpT, pT_resolution; lra.
Qed.

Lemma hard_fill st :
  fill script_ny script_npT script_ys script_ps dy dpT st 0 3000 2000 0 0 = st.
Proof.
  destruct script_edges as [Hys Hps].
  rewrite (fill_eval script_ny script_npT script_ys script_ps dy dpT st
             0 3000 2000 0 0 0 2000 1 1 25 20000).
  - do 2 rejected; destruct st; reflexivity.
  - lra.
  - replace ((3000 + 0) / (3000 - 0)) with 1 by lra. rewrite ln_1; lra.
  - lra.
  - replace (2000 ^ 2 + 0 ^ 2) with (2000 * 2000) by lra. apply sqrt_square; lra.
  - lra.
  - lra.
  - apply Zfloor_eq; rewrite Hys; unfold dy, rap_resolution; lra.
  - apply Zfloor_eq; rewrite Hps; unfold dpT, pT_resolution; lra.
Qed.

Lemma ln_3_bounds : 1 <= ln 3 <= 3.
Proof.
  split.
  - destruct (Rle_lt_dec 1 (ln 3)) as [H|H]; [exact H|].
    apply exp_increasing in H; rewrite exp_ln in H by lra.
    pose proof exp_le_3; lra.
  - destruct (Rle_lt_dec (ln 3) 3) as [H|H]; [exact H|].
    apply exp_increasing in H; rewrite exp_ln in H by lra.
    pose proof (exp_ineq1_le 3); lra.
Qed.

Lemma forward_rapidity :
  5.5 <= 0.5 * ln ((88574 + 88573) / (88574 - 88573)) <= 16.5.
Proof.
  replace ((88574 + 88573) / (88574 - 88573)) with (3 ^ 11) by lra.
  rewrite ln_pow by lra.
  replace (INR 11) with 11 by (simpl; lra).
  pose proof ln_3_bounds; lra.
Qed.

Lemma forward_fill st :
  fill script_ny script_npT script_ys script_ps dy dpT st 0 88574 1 0 88573 =
  {| unfinished_event := unfinished_event st;
     events_in_file := events_in_file st;
     y_spectra_event := y_spectra_event st;
     pT_spectra_event := add_particle (pT_spectra_event st) 0 10 1 1;
     y_spectra_file := y_spectra_file st;
     pT_spectra_file := pT_spectra_file st |}.
Proof.
  destruct script_edges as [Hys Hps].
  pose proof forward_rapidity as Hr.
  set (r := 0.5 * ln ((88574 + 88573) / (88574 - 88573))) in Hr.
  rewrite (fill_eval script_ny script_npT script_ys script_ps dy dpT st
             0 88574 1 0 88573 r 1 1 1 (Zfloor ((r - script_ys) / dy)) 10).
  - rewrite accept_y_false.
    + rewrite (proj2 (accept_pT_iff _ _ _)); [reflexivity|].
      cuts; split; [lia|]. apply Rabs_def1; lra.
    + cuts; intros [[_ HZ] _].
      assert (51 <= Zfloor ((r - script_ys) / dy))%Z; [|lia].
      apply Zfloor_lub; rewrite Hys; unfold dy, rap_resolution.
      apply (Rmult_le_reg_r 0.2); [lra|].
      unfold Rdiv at 1; rewrite Rmult_assoc, Rinv_l by lra; lra.
  - lra.
  - reflexivity.
  - lra.
  - replace (1 ^ 2 + 0 ^ 2) with 1 by lra. apply sqrt_1.
  - lra.
  - lra.
  - reflexivity.
  - apply Zfloor_eq; rewrite Hps; unfold dpT, pT_resolution; lra.
Qed.

(** ** Acceptance into the two event histograms *)

Lemma sample_lines_read ys ps dy dpT st :
  process_line integer_literal script_ny script_npT SMASH ys ps dy dpT st wide_line
    = Return (fill script_ny script_npT ys ps dy dpT st 0 6 5 0 0) /\
  process_line integer_literal script_ny script_npT SMASH ys ps dy dpT st hard_line
    = Return (fill script_ny script_npT ys ps dy dpT st 0 3000 2000 0 0) /\
  process_line integer_literal script_ny script_npT SMASH ys ps dy dpT st forward_line
    = Return (fill script_ny script_npT ys ps dy dpT st 0 88574 1 0 88573).
Proof. split_all; reflexivity. Qed.

Lemma add_particle_contributes a b h i j v1 v2 :
  shape a b h -> (i < a)%nat -> (j < b)%nat ->
  contributes h (add_particle h i j v1 v2).
Proof.
  intros Hs Hi Hj; exists i, j.
  apply (add_particle_adds a b h i j v1 v2 Hs Hi Hj).
Qed.


(** * Accumulation *)

Section Accumulation.

Variable float64 : string -> option R.
Variables ny npT : nat.
Variables y_arr pT_arr : list R.

Lemma bounded_count_nonneg h i j : bounded h -> 0 <= hget h i j dN_idx.
Proof.
  intros Hb; destruct (Hb i j) as [H _].
  pose proof (Rabs_pos (hget h i j v1_idx)); lra.
Qed.

Lemma fill_file ys ps dy dpT st h p0 px py pz :
  y_spectra_file (fill ny npT ys ps dy dpT st h p0 px py pz) = y_spectra_file st /\
  pT_spectra_file (fill ny npT ys ps dy dpT st h p0 px py pz) = pT_spectra_file st /\
  events_in_file (fill ny npT ys ps dy dpT st h p0 px py pz) = events_in_file st /\
  unfinished_event (fill ny npT ys ps dy dpT st h p0 px py pz) = unfinished_event st.
Proof.
  unfold fill.
  destruct (Rleb _ 0); [auto|].
  destruct (Reqb _ 0); auto.
Qed.

(** A line either leaves the file-scoped values alone or is a commit. *)
Lemma process_line_file fmt ys ps dy dpT st iline st' :
  process_line float64 ny npT fmt ys ps dy dpT st iline = Return st' ->
  (y_spectra_file st' = y_spectra_file st /\
   pT_spectra_file st' = pT_spectra_file st /\
   events_in_file st' = events_in_file st) \/
  (unfinished_event st = true /\ st' = commit ny npT st).
Proof.
  unfold process_line; intros H.
  apply bind_Return in H as (l0 & _ & H).
  apply bind_Return in H as (c0 & _ & H).
  destruct (chr_eq c0 "#").
  - unfold comment_line in H.
    apply bind_Return in H as (l1 & _ & H).
    destruct (str_eq l1 _); [|inversion H; subst; auto].
    apply bind_Return in H as (l3 & _ & H).
    destruct (str_eq l3 (event_start_identifier fmt));
      [inversion H; subst; auto|].
    destruct (str_eq l3 _); [|discriminate].
    destruct (unfinished_event st); [|discriminate].
    inversion H; subst; auto.
  - unfold particle_line in H.
    apply bind_Return in H as (code & _ & H).
    destruct (lookup hadrons code) as [[h name]|]; [|inversion H; subst; auto].
    apply bind_Return in H as (txyz & _ & H).
    apply bind_Return in H as ([[[p0 px] py] pz] & _ & H).
    inversion H; subst; left.
    destruct (fill_file ys ps dy dpT st h p0 px py pz) as (H1 & H2 & H3 & _).
    auto.
Qed.

(** One more file (lines 203-212). *)
Lemma run_files_one fs fmt tot infile tot' :
  run_files float64 ny npT y_arr pT_arr fs fmt tot [infile] = Return tot' ->
  exists n new_y new_pT,
    extract_data_oscar float64 ny npT fs fmt infile y_arr pT_arr dy dpT
      = Return (Some n, new_y, new_pT) /\
    int64 n /\ wf nh ny new_y /\ wf nh npT new_pT /\
    tot' = if (n =? 0)%Z then tot
           else {| total_events := int64_add (total_events tot) n;
                   y_spectra := hadd (y_spectra tot) new_y;
                   pT_spectra := hadd (pT_spectra tot) new_pT |}.
Proof.
  cbn [run_files]; intros H.
  apply bind_Return in H as ([[n y] p] & Hx & H).
  pose proof Hx as Hok.
  apply extract_data_oscar_ok in Hok as (m & -> & Hm & Hy & Hp).
  exists m, y, p; split_all; auto.
  destruct (m =? 0)%Z; inversion H; reflexivity.
Qed.


(** C8 (as the code has it).  The file-scoped and the run-scoped
    histograms change by additions only, and every count entry is
    monotone: a line of the file, so in particular an event commit, and
    the merge of a file leave each count greater than or equal to its
    previous value.  The v1 and v2 sums are sums of signed numbers and
    carry no such guarantee. *)
Theorem counts_never_decrease :
  (forall fmt ys ps dy dpT pre st iline st' i j,
     read_lines float64 ny npT fmt ys ps dy dpT (initial_state ny npT) pre
       = Return st ->
     process_line float64 ny npT fmt ys ps dy dpT st iline = Return st' ->
     hget (y_spectra_file st) i j dN_idx <= hget (y_spectra_file st') i j dN_idx /\
     hget (pT_spectra_file st) i j dN_idx <= hget (pT_spectra_file st') i j dN_idx) /\
  (forall fs fmt before infile tot tot' i j,
     run_files float64 ny npT y_arr pT_arr fs fmt (initial_totals ny npT) before
       = Return tot ->
     run_files float64 ny npT y_arr pT_arr fs fmt tot [infile] = Return tot' ->
     hget (y_spectra tot) i j dN_idx <= hget (y_spectra tot') i j dN_idx /\
     hget (pT_spectra tot) i j dN_idx <= hget (pT_spectra tot') i j dN_idx).
Proof.
  split.
  - intros fmt ys ps dy dpT pre st iline st' i j Hpre Hstep.
    apply read_lines_ok in Hpre; [|apply initial_state_ok].
    destruct Hpre as ((Hs1 & Hb1) & (Hs2 & Hb2) & (Hs3 & _) & (Hs4 & _) & _).
    apply process_line_file in Hstep as [(-> & -> & _)|(_ & ->)]; [lra|].
    unfold commit; fields.
    rewrite (hget_hadd nh ny), (hget_hadd nh npT) by assumption.
    pose proof (bounded_count_nonneg _ i j Hb1).
    pose proof (bounded_count_nonneg _ i j Hb2). lra.
  - intros fs fmt before infile tot tot' i j Hbefore Hone.
    apply run_files_ok in Hbefore; [|apply initial_totals_ok].
    destruct Hbefore as ((Hs1 & _) & (Hs2 & _) & _).
    apply run_files_one in Hone
      as (n & y & p & _ & _ & (Hsy & Hby) & (Hsp & Hbp) & ->).
    destruct (n =? 0)%Z; [lra|]; fields.
    rewrite (hget_hadd nh ny), (hget_hadd nh npT) by assumption.
    pose proof (bounded_count_nonneg _ i j Hby).
    pose proof (bounded_count_nonneg _ i j Hbp). lra.
Qed.

(** C9.  When each of the files A and B alone is read to the end, reading
    A then B in one run gives run totals that are the element-wise sum of
    the two single-file totals; the event count is the sum of the two
    counts as long as that sum fits the 64-bit counter. *)
Theorem run_additivity fs fmt A B tA tB :
  run_files float64 ny npT y_arr pT_arr fs fmt (initial_totals ny npT) [A]
    = Return tA ->
  run_files float64 ny npT y_arr pT_arr fs fmt (initial_totals ny npT) [B]
    = Return tB ->
  int64 (total_events tA + total_events tB) ->
  run_files float64 ny npT y_arr pT_arr fs fmt (initial_totals ny npT) [A; B]
    = Return {| total_events := (total_events tA + total_events tB)%Z;
                y_spectra := hadd (y_spectra tA) (y_spectra tB);
                pT_spectra := hadd (pT_spectra tA) (pT_spectra tB) |}.
Proof.
  intros HA HB Hsum.
  change [A; B] with ([A] ++ [B])%list; rewrite run_files_app, HA; cbn [bind].
  pose proof HA as HtA.
  apply run_files_ok in HtA; [|apply initial_totals_ok].
  destruct HtA as ((HsA & _) & (HpA & _) & HnA).
  apply run_files_one in HB as (n & y & p & Hx & Hn & (Hy & _) & (Hp & _) & ->).
  cbn [run_files]; rewrite Hx; cbn [bind].
  destruct (n =? 0)%Z eqn:E; unfold initial_totals in *; fields.
  - rewrite Z.add_0_r, !hadd_zeros_r by assumption.
    destruct tA; reflexivity.
  - unfold int64_add in *; cbn [Z.add] in *.
    rewrite (wrap64_id n) in * by exact Hn.
    rewrite !hadd_zeros_l by assumption.
    rewrite (wrap64_id _ Hsum); reflexivity.
Qed.

End Accumulation.

(** * Commit and discard *)

Section Commit.

Variable float64 : string -> option R.
Variables ny npT : nat.
Variable fmt : format.
Variables ys ps dy dpT : R.

Local Abbreviation step := (process_line float64 ny npT fmt ys ps dy dpT).
Local Abbreviation run := (read_lines float64 ny npT fmt ys ps dy dpT).
Local Abbreviation act := (perform ny npT ys ps dy dpT).

Lemma process_line_action st iline :
  step st iline = bind (action_of float64 fmt iline) (act st).
Proof.
  unfold process_line, action_of.
  destruct (index_cases (split iline) 0) as [[l0 ->]| ->]; cbn [bind]; auto.
  destruct l0 as [|c0 l0]; cbn [first_char bind]; auto.
  destruct (chr_eq c0 "#").
  - unfold comment_line.
    destruct (index_cases (split iline) 1) as [[l1 ->]| ->]; cbn [bind]; auto.
    destruct (str_eq l1 _); auto.
    destruct (index_cases (split iline) 3) as [[l3 ->]| ->]; cbn [bind]; auto.
    destruct (str_eq l3 (event_start_identifier fmt)); auto.
    destruct (str_eq l3 _); auto.
  - unfold particle_line.
    destruct (index_cases (split iline) (pdg_idx fmt)) as [[code ->]| ->];
      cbn [bind]; auto.
    destruct (lookup hadrons code) as [[h name]|]; auto.
    destruct (unpack4_cases float64 (slice (split iline) 0 4)) as [[txyz ->]| ->];
      cbn [bind]; auto.
    destruct (unpack4_cases float64
                (slice (split iline) (mom_start fmt) (mom_end fmt)))
      as [[[[[p0 px] py] pz] ->]| ->]; cbn [bind]; auto.
Qed.

Lemma end_marker_action iline :
  is_end_marker fmt iline = true <-> action_of float64 fmt iline = Return Commit.
Proof.
  unfold is_end_marker, is_event_label, is_comment, action_of, index.
  destruct (split iline) as [|[|c0 l0] line]; cbn [nth_error bind first_char];
    try (split; discriminate).
  destruct (chr_eq c0 "#"); cbn [andb negb].
  - destruct line as [|l1 [|l2 [|l3 line]]]; cbn [nth_error bind];
      try (split; discriminate);
      try (destruct (str_eq l1 _); split; discriminate).
    destruct (str_eq l1 _); cbn [andb negb]; [|split; discriminate].
    destruct (str_eq l3 (event_start_identifier fmt)); cbn [andb negb];
      [split; discriminate|].
    destruct (str_eq l3 _); split; auto; discriminate.
  - split; [discriminate|].
    destruct (nth_error _ (pdg_idx fmt)) as [code|]; cbn [bind]; [|discriminate].
    destruct (lookup hadrons code) as [[h name]|]; [|discriminate].
    destruct (unpack4_cases float64 (slice (String c0 l0 :: line) 0 4))
      as [[txyz ->]| ->]; cbn [bind]; [|discriminate].
    destruct (unpack4_cases float64
                (slice (String c0 l0 :: line) (mom_start fmt) (mom_end fmt)))
      as [[[[[p0 px] py] pz] ->]| ->]; cbn [bind]; discriminate.
Qed.

Lemma particle_action iline a :
  is_particle_line iline = true -> action_of float64 fmt iline = Return a ->
  a = Keep \/ exists h name code p0 px py pz,
    lookup hadrons code = Some (h, name) /\ a = Fill h p0 px py pz.
Proof.
  unfold is_particle_line, action_of, index.
  destruct (split iline) as [|[|c0 l0] line]; try discriminate.
  cbn [nth_error bind first_char].
  destruct (chr_eq c0 "#"); [discriminate|]; intros _.
  destruct (nth_error _ (pdg_idx fmt)) as [code|]; cbn [bind]; [|discriminate].
  destruct (lookup hadrons code) as [[h name]|] eqn:E;
    [|intros H; inversion H; auto].
  destruct (unpack4_cases float64 (slice (String c0 l0 :: line) 0 4))
    as [[txyz ->]| ->]; cbn [bind]; [|discriminate].
  destruct (unpack4_cases float64
              (slice (String c0 l0 :: line) (mom_start fmt) (mom_end fmt)))
    as [[[[[p0 px] py] pz] ->]| ->]; cbn [bind]; [|discriminate].
  intros H; inversion H; right; exists h, name, code, p0, px, py, pz; auto.
Qed.

(** *** Lines after the last end marker change nothing in the file values *)

Lemma perform_keeps_file st a st' :
  a <> Commit -> act st a = Return st' ->
  events_in_file st' = events_in_file st /\
  y_spectra_file st' = y_spectra_file st /\
  pT_spectra_file st' = pT_spectra_file st.
Proof.
  destruct a as [| | |h p0 px py pz]; cbn [perform]; intros Ha H;
    try contradiction; inversion H; subst; auto.
  destruct (fill_file ny npT ys ps dy dpT st h p0 px py pz) as (H1 & H2 & H3 & _).
  auto.
Qed.

Lemma run_without_end_marker post : forall st st',
  has_end_marker fmt post = false -> run st post = Return st' ->
  events_in_file st' = events_in_file st /\
  y_spectra_file st' = y_spectra_file st /\
  pT_spectra_file st' = pT_spectra_file st.
Proof.
  induction post as [|l post IH]; cbn [read_lines has_end_marker existsb];
    intros st st' Hno H.
  - inversion H; auto.
  - apply orb_false_iff in Hno as [Hl Hpost].
    apply bind_Return in H as (s1 & Hstep & Hrest).
    rewrite process_line_action in Hstep.
    apply bind_Return in Hstep as (a & Ha & Hact).
    assert (Hne : a <> Commit).
    { intros ->. apply end_marker_action in Ha; congruence. }
    destruct (perform_keeps_file st a s1 Hne Hact) as (E1 & E2 & E3).
    destruct (IH s1 st' Hpost Hrest) as (F1 & F2 & F3).
    split_all; congruence.
Qed.

(** *** Two runs that differ by one particle line *)

Lemma fill_pending cy cpT s1 s2 h p0 px py pz :
  pending cy cpT s1 s2 ->
  pending cy cpT (fill ny npT ys ps dy dpT s1 h p0 px py pz)
                 (fill ny npT ys ps dy dpT s2 h p0 px py pz).
Proof.
  intros (Hu & Hn & Hye & Hpe & Hyf & Hpf); unfold fill.
  destruct (Rleb _ 0); [unfold pending; auto 10|].
  destruct (Reqb _ 0); [unfold pending; auto 10|].
  unfold pending; fields; split_all; auto.
  - destruct (accept_y _ _ _); [|exact Hye].
    rewrite Hye, add_particle_hadd; reflexivity.
  - destruct (accept_pT _ _ _); [|exact Hpe].
    rewrite Hpe, add_particle_hadd; reflexivity.
Qed.

Lemma fill_folded cy cpT s1 s2 h p0 px py pz :
  folded cy cpT s1 s2 ->
  folded cy cpT (fill ny npT ys ps dy dpT s1 h p0 px py pz)
                (fill ny npT ys ps dy dpT s2 h p0 px py pz).
Proof.
  intros (Hu & Hn & Hye & Hpe & Hyf & Hpf); unfold fill.
  destruct (Rleb _ 0); [unfold folded; auto 10|].
  destruct (Reqb _ 0); [unfold folded; auto 10|].
  unfold folded; fields; split_all; auto.
  - rewrite Hye; reflexivity.
  - rewrite Hpe; reflexivity.
Qed.

Lemma hadd_swap x y z : hadd (hadd x y) z = hadd (hadd x z) y.
Proof. rewrite !hadd_assoc, (hadd_comm y z); reflexivity. Qed.

Lemma perform_pending cy cpT s1 s2 a s1' :
  pending cy cpT s1 s2 -> act s1 a = Return s1' ->
  exists s2', act s2 a = Return s2' /\
    match a with
    | Commit => folded cy cpT s1' s2'
    | _ => pending cy cpT s1' s2'
    end.
Proof.
  intros Hp; pose proof Hp as (Hu & Hn & Hye & Hpe & Hyf & Hpf).
  destruct a as [| | |h p0 px py pz]; cbn [perform]; intros H.
  - inversion H; subst; eexists; split; [reflexivity|].
    unfold pending, with_flag; fields; auto 10.
  - rewrite <- Hu; destruct (unfinished_event s1); [|discriminate].
    inversion H; subst; eexists; split; [reflexivity|].
    unfold folded, commit; fields; split_all; auto.
    + congruence.
    + rewrite Hyf, Hye, hadd_assoc; reflexivity.
    + rewrite Hpf, Hpe, hadd_assoc; reflexivity.
  - inversion H; subst; eexists; split; [reflexivity|exact Hp].
  - inversion H; subst; eexists; split; [reflexivity|].
    apply fill_pending; exact Hp.
Qed.

Lemma perform_folded cy cpT s1 s2 a s1' :
  folded cy cpT s1 s2 -> act s1 a = Return s1' ->
  exists s2', act s2 a = Return s2' /\ folded cy cpT s1' s2'.
Proof.
  intros Hp; pose proof Hp as (Hu & Hn & Hye & Hpe & Hyf & Hpf).
  destruct a as [| | |h p0 px py pz]; cbn [perform]; intros H.
  - inversion H; subst; eexists; split; [reflexivity|].
    unfold folded, with_flag; fields; auto 10.
  - rewrite <- Hu; destruct (unfinished_event s1); [|discriminate].
    inversion H; subst; eexists; split; [reflexivity|].
    unfold folded, commit; fields; split_all; auto.
    + congruence.
    + rewrite Hyf, Hye; apply hadd_swap.
    + rewrite Hpf, Hpe; apply hadd_swap.
  - inversion H; subst; eexists; split; [reflexivity|exact Hp].
  - inversion H; subst; eexists; split; [reflexivity|].
    apply fill_folded; exact Hp.
Qed.

Lemma run_folded cy cpT post : forall s1 s2 s1',
  folded cy cpT s1 s2 -> run s1 post = Return s1' ->
  exists s2', run s2 post = Return s2' /\ folded cy cpT s1' s2'.
Proof.
  induction post as [|l post IH]; cbn [read_lines]; intros s1 s2 s1' Hf H.
  - inversion H; subst; eauto.
  - apply bind_Return in H as (m1 & Hstep & Hrest).
    rewrite process_line_action in Hstep |- *.
    apply bind_Return in Hstep as (a & Ha & Hact).
    destruct (perform_folded cy cpT s1 s2 a m1 Hf Hact) as (m2 & Hact2 & Hf').
    rewrite Ha; cbn [bind]; rewrite Hact2; cbn [bind].
    eapply IH; eauto.
Qed.

Lemma run_pending cy cpT post : forall s1 s2 s1',
  pending cy cpT s1 s2 -> run s1 post = Return s1' ->
  exists s2', run s2 post = Return s2' /\
    if has_end_marker fmt post then folded cy cpT s1' s2'
    else pending cy cpT s1' s2'.
Proof.
  induction post as [|l post IH]; cbn [read_lines has_end_marker existsb];
    intros s1 s2 s1' Hp H.
  - inversion H; subst; eauto.
  - apply bind_Return in H as (m1 & Hstep & Hrest).
    rewrite process_line_action in Hstep |- *.
    apply bind_Return in Hstep as (a & Ha & Hact).
    destruct (perform_pending cy cpT s1 s2 a m1 Hp Hact) as (m2 & Hact2 & Hp').
    rewrite Ha; cbn [bind]; rewrite Hact2; cbn [bind].
    destruct (is_end_marker fmt l) eqn:El; cbn [orb].
    + apply end_marker_action in El; rewrite El in Ha; inversion Ha; subst a.
      eapply run_folded; eauto.
    + assert (Hne : a <> Commit).
      { intros ->; apply end_marker_action in Ha; congruence. }
      apply (IH m1 m2 s1'); [|exact Hrest].
      destruct a; auto; contradiction.
Qed.

End Commit.

Section CommitOfAFile.

Variable float64 : string -> option R.
Variables ny npT : nat.

Lemma fill_event_split ys ps dy dpT st h p0 px py pz :
  state_ok ny npT st ->
  pending
    (y_spectra_event (fill ny npT ys ps dy dpT (initial_state ny npT) h p0 px py pz))
    (pT_spectra_event (fill ny npT ys ps dy dpT (initial_state ny npT) h p0 px py pz))
    (fill ny npT ys ps dy dpT st h p0 px py pz) st.
Proof.
  intros ((Hye & _) & (Hpe & _) & _).
  destruct (fill_file ny npT ys ps dy dpT st h p0 px py pz) as (F1 & F2 & F3 & F4).
  unfold pending; split_all; auto.
  - unfold fill.
    destruct (Rleb _ 0); [cbn; rewrite (hadd_zeros_r nh ny); auto|].
    destruct (Reqb _ 0); [cbn; rewrite (hadd_zeros_r nh ny); auto|].
    fields; unfold initial_state; fields.
    destruct (accept_y _ _ _); [|rewrite (hadd_zeros_r nh ny); auto].
    rewrite hadd_comm, <- add_particle_hadd, (hadd_zeros_l nh ny); auto.
  - unfold fill.
    destruct (Rleb _ 0); [cbn; rewrite (hadd_zeros_r nh npT); auto|].
    destruct (Reqb _ 0); [cbn; rewrite (hadd_zeros_r nh npT); auto|].
    fields; unfold initial_state; fields.
    destruct (accept_pT _ _ _); [|rewrite (hadd_zeros_r nh npT); auto].
    rewrite hadd_comm, <- add_particle_hadd, (hadd_zeros_l nh npT); auto.
Qed.

Lemma particle_line_pending fmt ys ps dy dpT st p st' :
  state_ok ny npT st -> is_particle_line p = true ->
  process_line float64 ny npT fmt ys ps dy dpT st p = Return st' ->
  pending (contribution_y float64 ny npT fmt ys ps dy dpT p)
          (contribution_pT float64 ny npT fmt ys ps dy dpT p) st' st.
Proof.
  intros Hst Hp H; unfold contribution_y, contribution_pT.
  rewrite process_line_action in H |- *.
  apply bind_Return in H as (a & Ha & Hact); rewrite Ha; cbn [bind].
  destruct (particle_action float64 fmt p a Hp Ha)
    as [->|(h & name & code & p0 & px & py & pz & _ & ->)];
    cbn [perform] in *; inversion Hact; subst.
  - destruct Hst as ((Hye & _) & (Hpe & _) & _).
    unfold pending, initial_state; fields.
    rewrite (hadd_zeros_r nh ny), (hadd_zeros_r nh npT); auto 10.
  - apply fill_event_split; exact Hst.
Qed.


End CommitOfAFile.

(** * Sample runs *)

Lemma start_step st : sample_step st event_start_line = Return (with_flag true st).
Proof. reflexivity. Qed.

Lemma end_step st :
  sample_step st event_end_line =
  if unfinished_event st then Return (commit script_ny script_npT st) else Exit 1.
Proof. reflexivity. Qed.

Lemma blank_step st : sample_step st "" = Raise IndexError.
Proof. reflexivity. Qed.

Lemma pion_step st :
  sample_step st pion_line =
  Return {| unfinished_event := unfinished_event st;
            events_in_file := events_in_file st;
            y_spectra_event := add_particle (y_spectra_event st) 0 25 (-1) 1;
            pT_spectra_event := add_particle (pT_spectra_event st) 0 10 (-1) 1;
            y_spectra_file := y_spectra_file st;
            pT_spectra_file := pT_spectra_file st |}.
Proof. unfold sample_step; rewrite pion_line_reads, pion_fill; reflexivity. Qed.

Lemma sample_extract_reads infile ifile :
  sample_directory infile = Some ifile ->
  sample_extract infile =
  bind (sample_read sample_initial ifile)
       (fun st => Return (Some (events_in_file st),
                          y_spectra_file st, pT_spectra_file st)).
Proof.
  intros H; unfold sample_extract, extract_data_oscar.
  rewrite script_y_start, script_pT_start; cbn [bind]; rewrite H; reflexivity.
Qed.

Lemma sample_read_cons st iline rest :
  sample_read st (iline :: rest) =
  bind (sample_step st iline) (fun st' => sample_read st' rest).
Proof. reflexivity. Qed.

Lemma sample_read_nil st : sample_read st [] = Return st.
Proof. reflexivity. Qed.

(** Read sample lines one after the other. *)
Ltac sample_lines :=
  repeat (first [ rewrite sample_read_nil
                | rewrite sample_read_cons;
                  first [ rewrite start_step | rewrite end_step
                        | rewrite pion_step | rewrite blank_step ] ];
          cbn [bind with_flag unfinished_event events_in_file y_spectra_event
               pT_spectra_event y_spectra_file pT_spectra_file]).

Lemma one_event_read st :
  unfinished_event st = false ->
  sample_read st [event_start_line; pion_line; event_end_line] =
  Return {| unfinished_event := false;
            events_in_file := int64_add (events_in_file st) 1;
            y_spectra_event := zeros nh script_ny;
            pT_spectra_event := zeros nh script_npT;
            y_spectra_file :=
              hadd (y_spectra_file st)
                   (add_particle (y_spectra_event st) 0 25 (-1) 1);
            pT_spectra_file :=
              hadd (pT_spectra_file st)
                   (add_particle (pT_spectra_event st) 0 10 (-1) 1) |}.
Proof. intros H; sample_lines; reflexivity. Qed.

Lemma one_pion_entries bins bin k :
  (bin < bins)%nat ->
  hget (hadd (zeros nh bins) (one_pion bins bin)) 0 bin k = nth k [1; -1; 1] 0.
Proof.
  intros H; unfold one_pion.
  rewrite (hadd_zeros_l nh bins) by apply shape_add_particle, shape_zeros.
  rewrite (hget_add_particle nh bins), hget_zeros;
    [|apply shape_zeros|unfold nh; simpl; lia|exact H].
  unfold particle_entry; rewrite !Nat.eqb_refl; cbn [andb]; lra.
Qed.

(** What the sample files give. *)
Lemma sample_one_event :
  sample_extract "one_event.oscar" =
  Return (Some 1%Z, hadd (zeros nh script_ny) (one_pion script_ny 25),
          hadd (zeros nh script_npT) (one_pion script_npT 10)).
Proof.
  rewrite (sample_extract_reads "one_event.oscar" _ eq_refl).
  rewrite one_event_read by reflexivity; reflexivity.
Qed.

Lemma sample_no_particle :
  sample_extract "no_particle.oscar" =
  Return (Some 1%Z, hadd (zeros nh script_ny) (zeros nh script_ny),
          hadd (zeros nh script_npT) (zeros nh script_npT)).
Proof.
  rewrite (sample_extract_reads "no_particle.oscar" _ eq_refl); sample_lines; reflexivity.
Qed.

Lemma sample_open_event :
  sample_extract "open_event.oscar" =
  Return (Some 1%Z, hadd (zeros nh script_ny) (one_pion script_ny 25),
          hadd (zeros nh script_npT) (one_pion script_npT 10)).
Proof.
  rewrite (sample_extract_reads "open_event.oscar" _ eq_refl); sample_lines; reflexivity.
Qed.

Lemma sample_stray :
  sample_extract "stray.oscar" =
  Return (Some 1%Z, hadd (zeros nh script_ny) (one_pion script_ny 25),
          hadd (zeros nh script_npT) (one_pion script_npT 10)).
Proof.
  rewrite (sample_extract_reads "stray.oscar" _ eq_refl); sample_lines; reflexivity.
Qed.

Lemma sample_end_first : sample_extract "end_first.oscar" = Exit 1.
Proof.
  rewrite (sample_extract_reads "end_first.oscar" _ eq_refl); sample_lines; reflexivity.
Qed.

Lemma sample_blank : sample_extract "blank.oscar" = Raise IndexError.
Proof.
  rewrite (sample_extract_reads "blank.oscar" _ eq_refl); sample_lines; reflexivity.
Qed.

Lemma sample_run_cons infile rest tot :
  run_files integer_literal script_ny script_npT script_y_arr script_pT_arr
    sample_directory SMASH tot (infile :: rest) =
  bind (sample_extract infile)
    (fun r =>
       let '(new_events, new_y_spectra, new_pT_spectra) := r in
       match new_events with
       | None =>
           run_files integer_literal script_ny script_npT script_y_arr
             script_pT_arr sample_directory SMASH tot rest
       | Some n =>
           if (n =? 0)%Z
           then run_files integer_literal script_ny script_npT script_y_arr
                  script_pT_arr sample_directory SMASH tot rest
           else run_files integer_literal script_ny script_npT script_y_arr
                  script_pT_arr sample_directory SMASH
                  {| total_events := int64_add (total_events tot) n;
                     y_spectra := hadd (y_spectra tot) new_y_spectra;
                     pT_spectra := hadd (pT_spectra tot) new_pT_spectra |}
                  rest
       end).
Proof. reflexivity. Qed.

Lemma sample_run_one_event : sample_run ["one_event.oscar"] = Return one_pion_totals.
Proof.
  unfold sample_run; rewrite sample_run_cons, sample_one_event; reflexivity.
Qed.

Lemma sample_run_stray : sample_run ["stray.oscar"] = Return one_pion_totals.
Proof.
  unfold sample_run; rewrite sample_run_cons, sample_stray; reflexivity.
Qed.

(** * The properties on the sample files *)




(** [end_without_start_is_fatal] on a file that begins with an end marker. *)
Lemma end_without_start_is_fatal_witness :
  select_format "SMASH" = Some SMASH /\
  sample_directory "end_first.oscar"
    = Some ([] ++ event_end_line :: [event_start_line; pion_line])%list /\
  sample_read sample_initial [] = Return sample_initial /\
  unfinished_event sample_initial = false /\
  is_end_marker SMASH event_end_line = true /\
  sample_run [] = Return (initial_totals script_ny script_npT) /\
  sample_extract "end_first.oscar" = Exit 1 /\
  sample_main "SMASH" ["end_first.oscar"; "one_event.oscar"] = Exit 1.
Proof.
  pose proof (end_without_start_is_fatal integer_literal script_ny script_npT
                script_y_arr script_pT_arr "SMASH" SMASH sample_directory []
                "end_first.oscar" ["one_event.oscar"] [] event_end_line
                [event_start_line; pion_line] (-5 + 0 * 0.2) (0.05 + 0 * 0.1)
                sample_initial (initial_totals script_ny script_npT)
                eq_refl eq_refl eq_refl eq_refl eq_refl eq_refl eq_refl eq_refl)
    as [Hextract Hmain].
  split; [reflexivity|].
  split; [reflexivity|].
  split; [reflexivity|].
  split; [reflexivity|].
  split; [reflexivity|].
  split; [reflexivity|].
  split; [exact Hextract|exact Hmain].
Defined.

(** C6, counterexample: an unknown format and an end marker without a
    start end the run with one and the same status. *)
Lemma config_and_parse_errors_share_status :
  select_format "UrQMD" = None /\
  sample_main "UrQMD" ["one_event.oscar"] = Exit 1 /\
  sample_main "SMASH" ["end_first.oscar"] = Exit 1.
Proof.
  split_all; reflexivity.
Qed.

(** [exit_status_by_category] on the sample directory. *)
Lemma exit_status_by_category_witness :
  select_format "UrQMD" = None /\
  sample_main "UrQMD" ["one_event.oscar"] = Exit 1.
Proof.
  split; [reflexivity|].
  apply (proj1 (proj2 (exit_status_by_category integer_literal script_ny
                         script_npT script_y_arr script_pT_arr "UrQMD"
                         sample_directory ["one_event.oscar"]))).
  reflexivity.
Defined.

Lemma sample_main_SMASH inputs :
  sample_main "SMASH" inputs =
  bind (sample_run inputs)
    (fun tot =>
       if (total_events tot =? 0)%Z then Exit 2
       else Return {| out_hadrons := hadrons;
                      out_total_events := total_events tot;
                      out_pT_min_cut := pT_min_cut;
                      out_pT_max_cut := pT_max_cut;
                      out_rap_cut := rap_cut;
                      out_y_arr := script_y_arr;
                      out_pT_arr := script_pT_arr;
                      out_dy := dy;
                      out_dpT := dpT;
                      out_y_spectra := y_spectra tot;
                      out_pT_spectra := pT_spectra tot |}).
Proof. reflexivity. Qed.

(** C5, failing input.  The file ["blank.oscar"] has a line without tokens
    between its markers: [line[0]] raises [IndexError] inside
    [extract_data_oscar], nothing catches it, and the run over
    ["blank.oscar"] and then ["one_event.oscar"] ends with that exception;
    the second file, which alone gives an output, is never read.  A file
    that cannot be opened ends the run in the same way. *)
Theorem blank_line_aborts_the_run :
  sample_extract "blank.oscar" = Raise IndexError /\
  sample_main "SMASH" ["blank.oscar"; "one_event.oscar"] = Raise IndexError /\
  sample_directory "missing.oscar" = None /\
  sample_main "SMASH" ["missing.oscar"; "one_event.oscar"] = Raise OSError /\
  exists p, sample_main "SMASH" ["one_event.oscar"] = Return p.
Proof.
  split_all.
  - apply sample_blank.
  - rewrite sample_main_SMASH; unfold sample_run.
    rewrite sample_run_cons, sample_blank; reflexivity.
  - reflexivity.
  - reflexivity.
  - rewrite sample_main_SMASH, sample_run_one_event; cbn [bind].
    eexists; reflexivity.
Qed.

Lemma before_commit_read :
  sample_read sample_initial [event_start_line; pion_line] = Return before_commit.
Proof. sample_lines; reflexivity. Qed.

Lemma before_commit_step :
  sample_step before_commit event_end_line
  = Return (commit script_ny script_npT before_commit).
Proof. rewrite end_step; reflexivity. Qed.

(** C8, counterexample: the commit of the event of ["one_event.oscar"]
    takes the v1 sum of the pion's rapidity bin from 0 to -1. *)
Lemma v1_sum_decreases_at_commit :
  sample_read sample_initial [event_start_line; pion_line] = Return before_commit /\
  sample_step before_commit event_end_line
    = Return (commit script_ny script_npT before_commit) /\
  hget (y_spectra_file (commit script_ny script_npT before_commit)) 0 25 v1_idx
  < hget (y_spectra_file before_commit) 0 25 v1_idx.
Proof.
  split_all; [apply before_commit_read|apply before_commit_step|].
  unfold commit, before_commit; fields.
  rewrite one_pion_entries by (unfold script_ny; lia).
  rewrite hget_zeros; unfold v1_idx; cbn [nth]; lra.
Qed.

(** [counts_never_decrease] at the commit of the event of
    ["one_event.oscar"]. *)
Lemma counts_never_decrease_witness :
  sample_read sample_initial [event_start_line; pion_line] = Return before_commit /\
  sample_step before_commit event_end_line
    = Return (commit script_ny script_npT before_commit) /\
  hget (y_spectra_file before_commit) 0 25 dN_idx
  <= hget (y_spectra_file (commit script_ny script_npT before_commit)) 0 25 dN_idx.
Proof.
  split; [apply before_commit_read|].
  split; [apply before_commit_step|].
  apply (proj1 (counts_never_decrease integer_literal script_ny script_npT
                  script_y_arr script_pT_arr)
           SMASH script_ys script_ps dy dpT [event_start_line; pion_line]
           before_commit event_end_line
           (commit script_ny script_npT before_commit) 0%nat 25%nat
           before_commit_read before_commit_step).
Defined.


(** [run_additivity] on two sample files with one event each. *)
Lemma run_additivity_witness :
  sample_run ["one_event.oscar"] = Return one_pion_totals /\
  sample_run ["stray.oscar"] = Return one_pion_totals /\
  int64 (total_events one_pion_totals + total_events one_pion_totals) /\
  sample_run ["one_event.oscar"; "stray.oscar"] =
  Return {| total_events := 1 + 1;
            y_spectra := hadd (y_spectra one_pion_totals) (y_spectra one_pion_totals);
            pT_spectra := hadd (pT_spectra one_pion_totals)
                               (pT_spectra one_pion_totals) |}.
Proof.
  assert (Hsum : int64 (total_events one_pion_totals + total_events one_pion_totals)).
  { unfold int64; cbn [one_pion_totals total_events]; lia. }
  split; [apply sample_run_one_event|].
  split; [apply sample_run_stray|].
  split; [exact Hsum|].
  apply (run_additivity integer_literal script_ny script_npT script_y_arr
           script_pT_arr sample_directory SMASH "one_event.oscar" "stray.oscar"
           one_pion_totals one_pion_totals
           sample_run_one_event sample_run_stray Hsum).
Defined.




(** * Further properties of the script *)

(** ** The registry *)

(** X1.  The registry is a one-to-one table: the code [k] has the index
    [i] exactly when the entry number [i] of the table is the one of [k].
    So the nine codes have the nine indices 0, ..., 8, no two codes share a
    row of the histograms, and every row belongs to a code. *)
Theorem registry_rows_and_codes k i name :
  lookup hadrons k = Some (i, name) <-> nth_error hadrons i = Some (k, (i, name)).
Proof.
  split.
  - unfold hadrons; cbn [lookup].
    repeat match goal with
           | |- context [String.eqb k ?b] =>
               destruct (String.eqb_spec k b) as [->|_];
               [intros H; inversion H; reflexivity|]
           end.
    discriminate.
  - do 9 (destruct i as [|i];
          [intros H; inversion H; reflexivity|]).
    unfold hadrons; cbn [nth_error]; destruct i; discriminate.
Qed.

(** ** Markers, labels and lines that are passed over *)

Section Markers.

Variable float64 : string -> option R.
Variables ny npT : nat.
Variables y_arr pT_arr : list R.

Lemma start_marker_action fmt iline :
  is_start_marker fmt iline = true -> action_of float64 fmt iline = Return Start.
Proof.
  unfold is_start_marker, is_event_label, is_comment, action_of, index.
  destruct (split iline) as [|[|c0 l0] line]; cbn [nth_error bind first_char];
    try discriminate.
  destruct (chr_eq c0 "#"); cbn [andb]; [|discriminate].
  destruct line as [|l1 [|l2 [|l3 line]]]; cbn [nth_error bind]; try discriminate.
  destruct (str_eq l1 _); cbn [andb]; [|discriminate].
  intros ->; reflexivity.
Qed.

Lemma unknown_label_action fmt iline :
  is_unknown_label fmt iline = true -> action_of float64 fmt iline = Exit 1.
Proof.
  unfold is_unknown_label, is_comment, action_of, index.
  destruct (split iline) as [|[|c0 l0] line]; cbn [nth_error bind first_char];
    try discriminate.
  destruct (chr_eq c0 "#"); cbn [andb]; [|discriminate].
  destruct line as [|l1 [|l2 [|l3 line]]]; cbn [nth_error bind]; try discriminate.
  destruct (str_eq l1 _); cbn [andb]; [|discriminate].
  destruct (str_eq l3 (event_start_identifier fmt)); cbn [andb negb];
    [discriminate|].
  destruct (str_eq l3 _); cbn [negb]; [discriminate|reflexivity].
Qed.

Lemma ignored_action fmt iline :
  is_ignored fmt iline = true -> action_of float64 fmt iline = Return Keep.
Proof.
  unfold is_ignored, is_comment, is_particle_line, action_of, index.
  destruct (split iline) as [|[|c0 l0] line] eqn:E.
  - destruct (pdg_idx fmt); discriminate.
  - destruct (nth_error _ 1); destruct (nth_error _ (pdg_idx fmt));
      discriminate.
  - cbn [bind first_char nth_error].
    destruct (chr_eq c0 "#"); cbn [andb negb].
    + destruct line as [|l1 line]; cbn [bind].
      * destruct (nth_error _ (pdg_idx fmt)); discriminate.
      * destruct (str_eq l1 _); cbn [negb orb]; [|reflexivity].
        destruct (nth_error _ (pdg_idx fmt)); discriminate.
    + destruct line as [|l1 line]; cbn [orb];
        (destruct (nth_error _ (pdg_idx fmt)) as [code|]; cbn [bind];
         [|discriminate]);
        (destruct (lookup hadrons code); [discriminate|reflexivity]).
Qed.

Lemma with_flag_same st : with_flag (unfinished_event st) st = st.
Proof. destruct st; reflexivity. Qed.

(** X2.  A comment line that names an event block with a label that is
    neither the start nor the end label stops the run in either state of
    the tracker: [extract_data_oscar] leaves through [sys.exit(1)] at that
    line, and the run ends with status 1 without an output. *)
Theorem unknown_label_is_fatal
    type fmt fs before infile rest pre l post y0 pT0 st tot :
  select_format type = Some fmt ->
  index y_arr 0 = Return y0 -> index pT_arr 0 = Return pT0 ->
  fs infile = Some (pre ++ l :: post)%list ->
  read_lines float64 ny npT fmt (y0 - dy / 2) (pT0 - dpT / 2) dy dpT
    (initial_state ny npT) pre = Return st ->
  is_unknown_label fmt l = true ->
  run_files float64 ny npT y_arr pT_arr fs fmt (initial_totals ny npT) before
    = Return tot ->
  extract_data_oscar float64 ny npT fs fmt infile y_arr pT_arr dy dpT = Exit 1 /\
  main float64 ny npT y_arr pT_arr type fs (before ++ infile :: rest)%list = Exit 1.
Proof.
  intros Hfmt Hy Hp Hfs Hpre Hl Hbefore.
  assert (Hx : extract_data_oscar float64 ny npT fs fmt infile y_arr pT_arr
                 dy dpT = Exit 1).
  { unfold extract_data_oscar; rewrite Hy, Hp; cbn [bind]; rewrite Hfs.
    rewrite read_lines_app, Hpre; cbn [bind read_lines].
    rewrite process_line_action, (unknown_label_action _ _ Hl); reflexivity. }
  split; [exact Hx|].
  unfold main; rewrite Hfmt, run_files_app, Hbefore; cbn [bind run_files].
  rewrite Hx; reflexivity.
Qed.

(** A line that leaves the state as it is can be taken out of the file. *)
Lemma extract_without_line fs fmt infile infile' ya pa dy dpT pre l post :
  fs infile = Some (pre ++ l :: post)%list ->
  fs infile' = Some (pre ++ post)%list ->
  (forall ys ps st,
     read_lines float64 ny npT fmt ys ps dy dpT (initial_state ny npT) pre
       = Return st ->
     process_line float64 ny npT fmt ys ps dy dpT st l = Return st) ->
  extract_data_oscar float64 ny npT fs fmt infile ya pa dy dpT =
  extract_data_oscar float64 ny npT fs fmt infile' ya pa dy dpT.
Proof.
  intros Hfs Hfs' Hl; unfold extract_data_oscar.
  destruct (index ya 0) as [y0| |]; cbn [bind]; auto.
  destruct (index pa 0) as [pT0| |]; cbn [bind]; auto.
  rewrite Hfs, Hfs', !read_lines_app.
  destruct (read_lines _ _ _ _ _ _ _ _ _ pre) as [st| |] eqn:E; cbn [bind]; auto.
  cbn [read_lines]; rewrite (Hl _ _ _ E); reflexivity.
Qed.

(** X3.  Lines that are passed over.  A comment line that does not name
    an event block, and a particle line whose code is not in the registry
    (whatever its other fields hold), have no effect: the file gives the
    same outcome, result or failure, with the line and without it. *)
Theorem ignored_line_has_no_effect fs fmt infile infile' ya pa dy dpT pre l post :
  fs infile = Some (pre ++ l :: post)%list ->
  fs infile' = Some (pre ++ post)%list ->
  is_ignored fmt l = true ->
  extract_data_oscar float64 ny npT fs fmt infile ya pa dy dpT =
  extract_data_oscar float64 ny npT fs fmt infile' ya pa dy dpT.
Proof.
  intros Hfs Hfs' Hl.
  apply (extract_without_line fs fmt infile infile' ya pa dy dpT pre l post Hfs Hfs').
  intros ys ps st _.
  rewrite process_line_action, (ignored_action _ _ Hl); reflexivity.
Qed.

Lemma start_marker_action_iff fmt iline :
  is_start_marker fmt iline = true <-> action_of float64 fmt iline = Return Start.
Proof.
  split; [apply start_marker_action|].
  unfold is_start_marker, is_event_label, is_comment, action_of, index.
  destruct (split iline) as [|[|c0 l0] line]; cbn [nth_error bind first_char];
    try discriminate.
  destruct (chr_eq c0 "#"); cbn [andb].
  - destruct line as [|l1 [|l2 [|l3 line]]]; cbn [nth_error bind];
      try discriminate;
      try (destruct (str_eq l1 _); discriminate).
    destruct (str_eq l1 _); cbn [andb]; [|discriminate].
    destruct (str_eq l3 (event_start_identifier fmt)); [reflexivity|].
    destruct (str_eq l3 _); discriminate.
  - destruct (nth_error _ (pdg_idx fmt)) as [code|]; cbn [bind]; [|discriminate].
    destruct (lookup hadrons code) as [[h name]|]; [|discriminate].
    destruct (unpack4_cases float64 (slice (String c0 l0 :: line) 0 4))
      as [[txyz ->]| ->]; cbn [bind]; [|discriminate].
    destruct (unpack4_cases float64
                (slice (String c0 l0 :: line) (mom_start fmt) (mom_end fmt)))
      as [[[[[p0 px] py] pz] ->]| ->]; cbn [bind]; discriminate.
Qed.

(** How one line moves the flag and the counter. *)
Lemma perform_flag_and_count fmt ys ps dy dpT st iline st' :
  process_line float64 ny npT fmt ys ps dy dpT st iline = Return st' ->
  unfinished_event st' =
    (if is_start_marker fmt iline then true
     else if is_end_marker fmt iline then false
     else unfinished_event st) /\
  events_in_file st' =
    (if is_end_marker fmt iline then int64_add (events_in_file st) 1
     else events_in_file st).
Proof.
  rewrite process_line_action; intros H.
  apply bind_Return in H as (a & Ha & Hact).
  destruct (is_start_marker fmt iline) eqn:Es.
  - apply start_marker_action_iff in Es; rewrite Es in Ha; inversion Ha; subst a.
    cbn [perform] in Hact; inversion Hact; subst.
    destruct (is_end_marker fmt iline) eqn:Ee; [|auto].
    apply (end_marker_action float64) in Ee; congruence.
  - destruct (is_end_marker fmt iline) eqn:Ee.
    + apply (end_marker_action float64) in Ee; rewrite Ee in Ha.
      inversion Ha; subst a; cbn [perform] in Hact.
      destruct (unfinished_event st); [|discriminate].
      inversion Hact; subst; auto.
    + destruct a as [| | |h p0 px py pz]; cbn [perform] in Hact.
      * apply start_marker_action_iff in Ha; congruence.
      * apply (end_marker_action float64) in Ha; congruence.
      * inversion Hact; subst; auto.
      * inversion Hact; subst.
        destruct (fill_file ny npT ys ps dy dpT st h p0 px py pz)
          as (_ & _ & H3 & H4); auto.
Qed.

Lemma wrap64_add_l a b : wrap64 (wrap64 a + b) = wrap64 (a + b).
Proof.
  unfold wrap64; f_equal.
  replace ((a + 2 ^ 63) mod 2 ^ 64 - 2 ^ 63 + b + 2 ^ 63)%Z
    with ((a + 2 ^ 63) mod 2 ^ 64 + b)%Z by lia.
  rewrite Z.add_mod_idemp_l by lia.
  f_equal; lia.
Qed.

Lemma count_end_markers_cons fmt l rest :
  count_end_markers fmt (l :: rest) =
  ((if is_end_marker fmt l then 1 else 0) + count_end_markers fmt rest)%nat.
Proof.
  unfold count_end_markers; cbn [filter].
  destruct (is_end_marker fmt l); reflexivity.
Qed.

Lemma read_lines_flag_and_count fmt ys ps dy dpT lines : forall st st',
  read_lines float64 ny npT fmt ys ps dy dpT st lines = Return st' ->
  unfinished_event st' = open_after fmt (unfinished_event st) lines /\
  wrap64 (events_in_file st') =
  wrap64 (events_in_file st + Z.of_nat (count_end_markers fmt lines)).
Proof.
  induction lines as [|l rest IH]; cbn [read_lines open_after]; intros st st' H.
  - inversion H; subst; split; [reflexivity|].
    unfold count_end_markers; cbn [filter List.length Z.of_nat].
    rewrite Z.add_0_r; reflexivity.
  - apply bind_Return in H as (s1 & Hstep & Hrest).
    apply perform_flag_and_count in Hstep as [Hflag Hcount].
    destruct (IH s1 st' Hrest) as [IHf IHc].
    rewrite IHf, IHc, Hflag, Hcount, count_end_markers_cons; split; [reflexivity|].
    destruct (is_end_marker fmt l).
    + unfold int64_add; rewrite wrap64_add_l; f_equal; lia.
    + f_equal; lia.
Qed.

(** X4.  A start marker met while an event is open resets nothing: the
    flag stays set and the particles binned so far stay in the event
    histograms, so the file gives the same outcome as without that marker;
    the open event and the one that was to start are committed as one. *)
Theorem start_inside_event_has_no_effect
    fs fmt infile infile' ya pa dy dpT pre l post :
  fs infile = Some (pre ++ l :: post)%list ->
  fs infile' = Some (pre ++ post)%list ->
  is_start_marker fmt l = true ->
  open_after fmt false pre = true ->
  extract_data_oscar float64 ny npT fs fmt infile ya pa dy dpT =
  extract_data_oscar float64 ny npT fs fmt infile' ya pa dy dpT.
Proof.
  intros Hfs Hfs' Hl Hopen.
  apply (extract_without_line fs fmt infile infile' ya pa dy dpT pre l post Hfs Hfs').
  intros ys ps st Hpre.
  apply read_lines_flag_and_count in Hpre as [Hflag _].
  unfold initial_state in Hflag; cbn [unfinished_event] in Hflag.
  rewrite process_line_action, (start_marker_action _ _ Hl); cbn [bind perform].
  rewrite <- Hopen, <- Hflag, with_flag_same; reflexivity.
Qed.

(** X5.  When a file is read to the end, the event counter it returns is
    the number of end-of-event markers in the file, kept in 64 bits: the
    number itself for a file of fewer than 2^63 lines. *)
Theorem event_count_is_number_of_end_markers
    fs fmt infile ya pa dy dpT ifile n yf ptf :
  fs infile = Some ifile ->
  extract_data_oscar float64 ny npT fs fmt infile ya pa dy dpT
    = Return (n, yf, ptf) ->
  n = Some (wrap64 (Z.of_nat (count_end_markers fmt ifile))) /\
  ((Z.of_nat (List.length ifile) < 2 ^ 63)%Z ->
   n = Some (Z.of_nat (count_end_markers fmt ifile))).
Proof.
  intros Hfs H.
  apply extract_data_oscar_Return in H
    as (y0 & pT0 & ifile' & st & _ & _ & Hfs' & Hrun & E).
  rewrite Hfs in Hfs'; inversion Hfs'; subst ifile'.
  inversion E; subst.
  pose proof (read_lines_ok _ _ _ _ _ _ _ _ _ _ _ (initial_state_ok ny npT) Hrun)
    as (_ & _ & _ & _ & Hn).
  destruct (read_lines_flag_and_count _ _ _ _ _ _ _ _ Hrun) as [Hflag Hcount].
  unfold initial_state in Hflag, Hcount; cbn [unfinished_event events_in_file] in *.
  rewrite (wrap64_id _ Hn), Z.add_0_l in Hcount.
  split_all.
  - rewrite Hcount; reflexivity.
  - intros Hlen; rewrite Hcount, wrap64_id; [reflexivity|].
    unfold int64, count_end_markers.
    pose proof (filter_length_le (is_end_marker fmt) ifile). lia.
Qed.

End Markers.

(** ** The returned histograms as sums over the lines *)

Section Sums.

Variable float64 : string -> option R.
Variables ny npT : nat.
Variable fmt : format.
Variables ys ps dy dpT : R.

Local Abbreviation step := (process_line float64 ny npT fmt ys ps dy dpT).
Local Abbreviation run := (read_lines float64 ny npT fmt ys ps dy dpT).
Local Abbreviation cy := (contribution_y float64 ny npT fmt ys ps dy dpT).
Local Abbreviation cpT := (contribution_pT float64 ny npT fmt ys ps dy dpT).

Lemma contribution_shapes iline : shape nh ny (cy iline) /\ shape nh npT (cpT iline).
Proof.
  unfold contribution_y, contribution_pT.
  destruct (step (initial_state ny npT) iline) as [st| |] eqn:E;
    try (split; apply shape_zeros).
  apply process_line_ok in E; [|apply initial_state_ok].
  destruct E as ((H1 & _) & (H2 & _) & _); auto.
Qed.

Lemma shape_hsum a b hs : Forall (shape a b) hs -> shape a b (hsum a b hs).
Proof.
  induction 1 as [|h hs Hh Hhs IH]; cbn [hsum];
    [apply shape_zeros|apply shape_hadd; assumption].
Qed.

Lemma contributions_shape_y lines : Forall (shape nh ny) (map cy lines).
Proof.
  apply Forall_forall; intros h Hin; apply in_map_iff in Hin as (l & <- & _).
  apply contribution_shapes.
Qed.

Lemma contributions_shape_pT lines : Forall (shape nh npT) (map cpT lines).
Proof.
  apply Forall_forall; intros h Hin; apply in_map_iff in Hin as (l & <- & _).
  apply contribution_shapes.
Qed.

(** A line that is not an end marker adds its contribution to the event
    histograms and leaves the file histograms alone. *)
Lemma step_adds_contribution st iline st' :
  state_ok ny npT st -> step st iline = Return st' ->
  is_end_marker fmt iline = false ->
  y_spectra_event st' = hadd (y_spectra_event st) (cy iline) /\
  pT_spectra_event st' = hadd (pT_spectra_event st) (cpT iline) /\
  y_spectra_file st' = y_spectra_file st /\
  pT_spectra_file st' = pT_spectra_file st.
Proof.
  intros Hst H Hend; pose proof Hst as ((Hye & _) & (Hpe & _) & _).
  unfold contribution_y, contribution_pT.
  rewrite process_line_action in H |- *.
  apply bind_Return in H as (a & Ha & Hact); rewrite Ha; cbn [bind].
  destruct a as [| | |h p0 px py pz]; cbn [perform] in *.
  - inversion Hact; subst; unfold with_flag, initial_state; fields.
    rewrite (hadd_zeros_r nh ny), (hadd_zeros_r nh npT); auto.
  - apply (end_marker_action float64) in Ha; congruence.
  - inversion Hact; subst; unfold initial_state; fields.
    rewrite (hadd_zeros_r nh ny), (hadd_zeros_r nh npT); auto.
  - inversion Hact; subst.
    destruct (fill_event_split ny npT ys ps dy dpT st h p0 px py pz Hst)
      as (_ & _ & H1 & H2 & H3 & H4); auto.
Qed.

Lemma end_marker_contribution iline :
  is_end_marker fmt iline = true ->
  cy iline = zeros nh ny /\ cpT iline = zeros nh npT.
Proof.
  intros H; unfold contribution_y, contribution_pT.
  rewrite (end_marker_outside float64 ny npT fmt ys ps dy dpT
             (initial_state ny npT) iline H eq_refl).
  auto.
Qed.

Lemma committed_no_end lines :
  has_end_marker fmt lines = false -> committed fmt lines = [].
Proof. destruct lines as [|l rest]; cbn [committed]; [auto|intros ->; auto]. Qed.

Lemma run_file_sum lines : forall st st',
  state_ok ny npT st -> run st lines = Return st' ->
  y_spectra_file st' =
    hadd (y_spectra_file st)
         (if has_end_marker fmt lines
          then hadd (y_spectra_event st) (hsum nh ny (map cy (committed fmt lines)))
          else zeros nh ny) /\
  pT_spectra_file st' =
    hadd (pT_spectra_file st)
         (if has_end_marker fmt lines
          then hadd (pT_spectra_event st)
                    (hsum nh npT (map cpT (committed fmt lines)))
          else zeros nh npT).
Proof.
  induction lines as [|l rest IH]; intros st st' Hst H.
  - cbn [read_lines] in H; inversion H; subst.
    destruct Hst as (_ & _ & (Hyf & _) & (Hpf & _) & _).
    cbn [has_end_marker existsb].
    rewrite (hadd_zeros_r nh ny), (hadd_zeros_r nh npT); auto.
  - cbn [read_lines] in H.
    apply bind_Return in H as (s1 & Hstep & Hrest).
    pose proof (process_line_ok _ _ _ _ _ _ _ _ _ _ _ Hst Hstep) as Hs1.
    destruct (IH s1 st' Hs1 Hrest) as [IHy IHp].
    pose proof Hst as ((Hye & _) & (Hpe & _) & (Hyf & _) & (Hpf & _) & _).
    pose proof (shape_hsum _ _ _ (contributions_shape_y (committed fmt rest))) as Sy.
    pose proof (shape_hsum _ _ _ (contributions_shape_pT (committed fmt rest))) as Sp.
    cbn [committed]; cbn [has_end_marker existsb] in *.
    fold (has_end_marker fmt rest) in *.
    destruct (is_end_marker fmt l) eqn:El; cbn [orb map hsum].
    + rewrite (end_marker_step float64 ny npT fmt ys ps dy dpT st l El) in Hstep.
      destruct (unfinished_event st); [|discriminate].
      inversion Hstep; subst s1; unfold commit in IHy, IHp; fields.
      destruct (end_marker_contribution l El) as [-> ->].
      rewrite IHy, IHp.
      destruct (has_end_marker fmt rest) eqn:Er.
      * rewrite !hadd_assoc; auto.
      * rewrite (committed_no_end rest Er); cbn [map hsum].
        rewrite !(hadd_zeros_r nh ny), !(hadd_zeros_r nh npT);
          auto using shape_zeros, shape_hadd.
    + destruct (step_adds_contribution st l s1 Hst Hstep El)
        as (E1 & E2 & E3 & E4).
      rewrite IHy, IHp, E1, E2, E3, E4.
      destruct (has_end_marker fmt rest); [|auto].
      rewrite !hadd_assoc; auto.
Qed.

End Sums.

Section SumsOfAFile.

Variable float64 : string -> option R.
Variables ny npT : nat.


(** *** Blocks of particle lines *)

Lemma hsum_app a b hs1 hs2 :
  Forall (shape a b) hs2 ->
  hsum a b (hs1 ++ hs2) = hadd (hsum a b hs1) (hsum a b hs2).
Proof.
  intros H2; induction hs1 as [|h hs1 IH]; cbn [hsum app].
  - rewrite (hadd_zeros_l a b); [reflexivity|apply shape_hsum; exact H2].
  - rewrite IH, hadd_assoc; reflexivity.
Qed.

Lemma hsum_permutation a b hs hs' :
  Permutation hs hs' -> hsum a b hs = hsum a b hs'.
Proof.
  induction 1 as [|h hs hs' _ IH|h1 h2 hs|hs1 hs2 hs3 _ IH1 _ IH2]; cbn [hsum].
  - reflexivity.
  - rewrite IH; reflexivity.
  - rewrite <- !hadd_assoc, (hadd_comm h2 h1); reflexivity.
  - congruence.
Qed.

(** The state after a block of particle lines. *)
Lemma particle_block fmt ys ps dy dpT block : forall st st',
  state_ok ny npT st ->
  Forall (fun l => is_particle_line l = true) block ->
  read_lines float64 ny npT fmt ys ps dy dpT st block = Return st' ->
  st' =
  {| unfinished_event := unfinished_event st;
     events_in_file := events_in_file st;
     y_spectra_event :=
       hadd (y_spectra_event st)
            (hsum nh ny (map (contribution_y float64 ny npT fmt ys ps dy dpT) block));
     pT_spectra_event :=
       hadd (pT_spectra_event st)
            (hsum nh npT (map (contribution_pT float64 ny npT fmt ys ps dy dpT) block));
     y_spectra_file := y_spectra_file st;
     pT_spectra_file := pT_spectra_file st |}.
Proof.
  induction block as [|l block IH]; intros st st' Hst Hall H.
  - cbn [read_lines] in H; inversion H; subst.
    destruct Hst as ((Hye & _) & (Hpe & _) & _); cbn [map hsum].
    rewrite (hadd_zeros_r nh ny), (hadd_zeros_r nh npT) by assumption.
    destruct st'; reflexivity.
  - cbn [read_lines] in H.
    apply bind_Return in H as (s1 & Hstep & Hrest).
    inversion Hall as [|? ? Hl Hblock]; subst.
    pose proof (process_line_ok _ _ _ _ _ _ _ _ _ _ _ Hst Hstep) as Hs1.
    rewrite (IH s1 st' Hs1 Hblock Hrest).
    destruct (particle_line_pending float64 ny npT fmt ys ps dy dpT st l s1
                Hst Hl Hstep) as (E1 & E2 & E3 & E4 & E5 & E6).
    rewrite E1, E2, E3, E4, E5, E6; cbn [map hsum].
    rewrite !hadd_assoc; reflexivity.
Qed.

(** Whether a particle line returns does not depend on the state. *)
Lemma particle_line_returns fmt ys ps dy dpT st st0 l st' :
  is_particle_line l = true ->
  process_line float64 ny npT fmt ys ps dy dpT st l = Return st' ->
  exists st0', process_line float64 ny npT fmt ys ps dy dpT st0 l = Return st0'.
Proof.
  intros Hl H; rewrite process_line_action in H |- *.
  apply bind_Return in H as (a & Ha & Hact); rewrite Ha; cbn [bind].
  destruct (particle_action float64 fmt l a Hl Ha)
    as [->|(h & name & code & p0 & px & py & pz & _ & ->)];
    cbn [perform]; eauto.
Qed.

Lemma particle_block_returns fmt ys ps dy dpT block : forall st,
  Forall (fun l => is_particle_line l = true /\
                   exists s s', process_line float64 ny npT fmt ys ps dy dpT s l
                                = Return s') block ->
  exists st', read_lines float64 ny npT fmt ys ps dy dpT st block = Return st'.
Proof.
  induction block as [|l block IH]; intros st Hall; cbn [read_lines]; eauto.
  inversion Hall as [|? ? [Hl (s & s' & Hs)] Hblock]; subst.
  destruct (particle_line_returns fmt ys ps dy dpT s st l s' Hl Hs) as (s1 & ->).
  cbn [bind]; apply IH; exact Hblock.
Qed.

Lemma particle_block_lines fmt ys ps dy dpT block : forall st st',
  Forall (fun l => is_particle_line l = true) block ->
  read_lines float64 ny npT fmt ys ps dy dpT st block = Return st' ->
  Forall (fun l => is_particle_line l = true /\
                   exists s s', process_line float64 ny npT fmt ys ps dy dpT s l
                                = Return s') block.
Proof.
  induction block as [|l block IH]; intros st st' Hall H; constructor.
  - inversion Hall; subst; split; [assumption|].
    cbn [read_lines] in H; apply bind_Return in H as (s1 & Hstep & _); eauto.
  - inversion Hall; subst.
    cbn [read_lines] in H; apply bind_Return in H as (s1 & _ & Hrest).
    eapply IH; eauto.
Qed.


End SumsOfAFile.

(** ** The loop over the files *)

Section Runs.

Variable float64 : string -> option R.
Variables ny npT : nat.
Variables y_arr pT_arr : list R.

Local Abbreviation extract :=
  (fun fs fmt infile =>
     extract_data_oscar float64 ny npT fs fmt infile y_arr pT_arr dy dpT).
Local Abbreviation files := (run_files float64 ny npT y_arr pT_arr).

Lemma run_files_cons fs fmt tot infile rest :
  files fs fmt tot (infile :: rest) =
  bind (extract fs fmt infile) (fun r => files fs fmt (merge tot r) rest).
Proof.
  cbn [run_files].
  destruct (extract_data_oscar _ _ _ _ _ _ _ _ _ _) as [[[n y] p]| |];
    cbn [bind merge]; auto.
  destruct n as [n|]; auto.
  destruct (n =? 0)%Z; auto.
Qed.

Lemma int64_add_swap t a b :
  int64_add (int64_add t a) b = int64_add (int64_add t b) a.
Proof.
  unfold int64_add; rewrite !wrap64_add_l; f_equal; lia.
Qed.

Lemma merge_swap tot r1 r2 :
  merge (merge tot r1) r2 = merge (merge tot r2) r1.
Proof.
  destruct r1 as [[[n1|] y1] p1], r2 as [[[n2|] y2] p2]; cbn [merge];
    try reflexivity.
  destruct (n1 =? 0)%Z, (n2 =? 0)%Z; fields; try reflexivity.
  rewrite int64_add_swap, (hadd_swap (y_spectra tot)),
    (hadd_swap (pT_spectra tot)); reflexivity.
Qed.


(** X9.  A run whose input files are all read to the end with zero
    events each ends with status 2, and writes nothing. *)
Theorem run_without_events_exits_2 type fmt fs inputs :
  select_format type = Some fmt ->
  (forall infile, In infile inputs ->
     exists y p,
       extract_data_oscar float64 ny npT fs fmt infile y_arr pT_arr dy dpT
       = Return (Some 0%Z, y, p)) ->
  main float64 ny npT y_arr pT_arr type fs inputs = Exit 2.
Proof.
  intros Hfmt Hall; unfold main; rewrite Hfmt.
  assert (H : forall tot, files fs fmt tot inputs = Return tot).
  { induction inputs as [|f rest IH]; intros tot; [reflexivity|].
    rewrite run_files_cons.
    destruct (Hall f (or_introl eq_refl)) as (y & p & ->); cbn [bind merge Z.eqb].
    apply IH; intros infile Hin; apply Hall; right; exact Hin. }
  rewrite H; reflexivity.
Qed.

(** *** Counts are whole numbers *)

Lemma whole_zeros a b : whole_counts (zeros a b).
Proof. intros i j; exists 0%nat; apply hget_zeros. Qed.

Lemma whole_hadd a b x y :
  shape a b x -> shape a b y -> whole_counts x -> whole_counts y ->
  whole_counts (hadd x y).
Proof.
  intros Sx Sy Hx Hy i j.
  destruct (Hx i j) as (n & En), (Hy i j) as (m & Em).
  exists (n + m)%nat; rewrite (hget_hadd a b), En, Em, plus_INR by assumption.
  reflexivity.
Qed.

Lemma whole_add_particle a b h i j v1 v2 :
  shape a b h -> (i < a)%nat -> (j < b)%nat -> whole_counts h ->
  whole_counts (add_particle h i j v1 v2).
Proof.
  intros Sh Hi Hj Hh i' j'; destruct (Hh i' j') as (n & En).
  rewrite (hget_add_particle a b) by assumption.
  unfold particle_entry; rewrite En; unfold dN_idx.
  destruct (Nat.eqb i i' && Nat.eqb j j'); cbn [nth].
  - exists (S n); rewrite S_INR; reflexivity.
  - exists n; lra.
Qed.

Lemma fill_action_registered fmt iline h p0 px py pz :
  action_of float64 fmt iline = Return (Fill h p0 px py pz) -> (h < nh)%nat.
Proof.
  unfold action_of.
  destruct (index_cases (split iline) 0) as [[l0 ->]| ->]; cbn [bind];
    [|discriminate].
  destruct l0 as [|c0 l0]; cbn [first_char bind]; [discriminate|].
  destruct (chr_eq c0 "#").
  - destruct (index_cases (split iline) 1) as [[l1 ->]| ->]; cbn [bind];
      [|discriminate].
    destruct (str_eq l1 _); [|discriminate].
    destruct (index_cases (split iline) 3) as [[l3 ->]| ->]; cbn [bind];
      [|discriminate].
    destruct (str_eq l3 (event_start_identifier fmt)); [discriminate|].
    destruct (str_eq l3 _); discriminate.
  - destruct (index_cases (split iline) (pdg_idx fmt)) as [[code ->]| ->];
      cbn [bind]; [|discriminate].
    destruct (lookup hadrons code) as [[h' name]|] eqn:E; [|discriminate].
    destruct (unpack4_cases float64 (slice (split iline) 0 4)) as [[txyz ->]| ->];
      cbn [bind]; [|discriminate].
    destruct (unpack4_cases float64
                (slice (split iline) (mom_start fmt) (mom_end fmt)))
      as [[[[[q0 qx] qy] qz] ->]| ->]; cbn [bind]; [|discriminate].
    intros H; inversion H; subst.
    eapply hadron_index_lt; exact E.
Qed.

Lemma fill_whole ys ps dy dpT st h p0 px py pz :
  state_ok ny npT st -> (h < nh)%nat -> state_whole st ->
  state_whole (fill ny npT ys ps dy dpT st h p0 px py pz).
Proof.
  intros ((Sye & _) & (Spe & _) & _) Hh (W1 & W2 & W3 & W4); unfold fill.
  destruct (Rleb _ 0); [unfold state_whole; auto|].
  destruct (Reqb _ 0); [unfold state_whole; auto|].
  unfold state_whole; fields; split_all; auto.
  - destruct (accept_y _ _ _) eqn:Hacc; [|exact W1].
    apply accept_y_range in Hacc as (Hj & _).
    apply (whole_add_particle nh ny); auto.
  - destruct (accept_pT _ _ _) eqn:Hacc; [|exact W2].
    apply accept_pT_range in Hacc as (Hj & _).
    apply (whole_add_particle nh npT); auto.
Qed.

Lemma process_line_whole fmt ys ps dy dpT st iline st' :
  state_ok ny npT st -> state_whole st ->
  process_line float64 ny npT fmt ys ps dy dpT st iline = Return st' ->
  state_whole st'.
Proof.
  intros Hst Hw H; rewrite process_line_action in H.
  apply bind_Return in H as (a & Ha & Hact).
  pose proof Hst as ((Sye & _) & (Spe & _) & (Syf & _) & (Spf & _) & _).
  pose proof Hw as (W1 & W2 & W3 & W4).
  destruct a as [| | |h p0 px py pz]; cbn [perform] in Hact.
  - inversion Hact; subst; unfold state_whole, with_flag; fields; auto.
  - destruct (unfinished_event st); [|discriminate].
    inversion Hact; subst; unfold state_whole, commit; fields.
    split_all; auto using whole_zeros;
      [apply (whole_hadd nh ny)|apply (whole_hadd nh npT)]; auto.
  - inversion Hact; subst; exact Hw.
  - inversion Hact; subst; apply fill_whole; auto.
    eapply fill_action_registered; exact Ha.
Qed.

Lemma read_lines_whole fmt ys ps dy dpT ifile : forall st st',
  state_ok ny npT st -> state_whole st ->
  read_lines float64 ny npT fmt ys ps dy dpT st ifile = Return st' ->
  state_whole st'.
Proof.
  induction ifile as [|l rest IH]; cbn [read_lines]; intros st st' Hst Hw H.
  - inversion H; subst; exact Hw.
  - apply bind_Return in H as (s1 & Hstep & Hrest).
    eapply IH; [| |exact Hrest].
    + eapply process_line_ok; eauto.
    + eapply process_line_whole; eauto.
Qed.

Lemma extract_whole fs fmt infile ya pa dy dpT n y p :
  extract_data_oscar float64 ny npT fs fmt infile ya pa dy dpT = Return (n, y, p) ->
  whole_counts y /\ whole_counts p.
Proof.
  intros H.
  apply extract_data_oscar_Return in H
    as (y0 & pT0 & ifile & st & _ & _ & _ & Hrun & E).
  inversion E; subst.
  apply read_lines_whole in Hrun; [|apply initial_state_ok|].
  - destruct Hrun as (_ & _ & W3 & W4); auto.
  - unfold state_whole, initial_state; fields; auto using whole_zeros.
Qed.

Lemma run_files_whole fs fmt inputs : forall tot tot',
  totals_ok ny npT tot ->
  whole_counts (y_spectra tot) -> whole_counts (pT_spectra tot) ->
  files fs fmt tot inputs = Return tot' ->
  whole_counts (y_spectra tot') /\ whole_counts (pT_spectra tot').
Proof.
  induction inputs as [|f rest IH]; intros tot tot' Hok Wy Wp H.
  - cbn [run_files] in H; inversion H; subst; auto.
  - rewrite run_files_cons in H.
    apply bind_Return in H as ([[n y] p] & Hx & H).
    pose proof (extract_whole _ _ _ _ _ _ _ _ _ _ Hx) as [Wy' Wp'].
    pose proof Hx as Hx'.
    apply extract_data_oscar_ok in Hx' as (m & -> & Hm & (Sy & By) & (Sp & Bp)).
    assert (Hok' : totals_ok ny npT (merge tot (Some m, y, p))).
    { eapply (run_files_ok float64 ny npT y_arr pT_arr fs fmt [f]); [exact Hok|].
      rewrite run_files_cons, Hx; reflexivity. }
    apply (IH _ _ Hok'); [| |exact H]; cbn [merge];
      destruct (m =? 0)%Z; fields; auto;
      destruct Hok as ((S1 & _) & (S2 & _) & _);
      [apply (whole_hadd nh ny)|apply (whole_hadd nh npT)]; auto.
Qed.

(** X10.  Whenever the script writes an output, its event count is not
    zero and fits 64 bits, its two histograms have the shapes (9, ny, 3)
    and (9, npT, 3) of the grid, and every count in them is a whole
    number. *)
Theorem written_output_is_well_formed type fs inputs p :
  main float64 ny npT y_arr pT_arr type fs inputs = Return p ->
  out_total_events p <> 0%Z /\ int64 (out_total_events p) /\
  shape nh ny (out_y_spectra p) /\ shape nh npT (out_pT_spectra p) /\
  whole_counts (out_y_spectra p) /\ whole_counts (out_pT_spectra p) /\
  nh = 9%nat.
Proof.
  unfold main; intros H.
  destruct (select_format type) as [fmt|]; [|discriminate].
  apply bind_Return in H as (tot & Hrun & H).
  destruct (total_events tot =? 0)%Z eqn:E0; [discriminate|].
  inversion H; subst; cbn.
  pose proof (run_files_ok _ _ _ _ _ _ _ _ _ _ (initial_totals_ok ny npT) Hrun)
    as ((Sy & _) & (Sp & _) & Hn).
  destruct (run_files_whole fs fmt inputs _ tot (initial_totals_ok ny npT)
              (whole_zeros _ _) (whole_zeros _ _) Hrun) as [Wy Wp].
  apply Z.eqb_neq in E0; split_all; auto.
Qed.

End Runs.

(** ** Bins *)

Lemma floor_bin e d r k :
  0 < d ->
  (Zfloor ((r - e) / d) = k <-> e + IZR k * d <= r < e + (IZR k + 1) * d).
Proof.
  intros Hd; split.
  - intros <-; pose proof (Zfloor_bound ((r - e) / d)) as [H1 H2].
    apply (Rmult_le_compat_r d) in H1; [|lra].
    apply (Rmult_lt_compat_r d) in H2; [|lra].
    unfold Rdiv in H1, H2; rewrite Rmult_assoc, Rinv_l in H1, H2 by lra.
    lra.
  - intros [H1 H2]; apply Zfloor_eq; split.
    + apply (Rmult_le_reg_r d); [exact Hd|].
      unfold Rdiv; rewrite Rmult_assoc, Rinv_l by lra; lra.
    + apply (Rmult_lt_reg_r d); [exact Hd|].
      unfold Rdiv; rewrite Rmult_assoc, Rinv_l by lra; lra.
Qed.

Section Bins.

Variables ny npT : nat.



End Bins.

(** ** The grid *)

Lemma nth_error_map_seq {A : Type} (f : nat -> A) n j :
  (j < n)%nat -> nth_error (map f (seq 0 n)) j = Some (f j).
Proof.
  intros H; rewrite nth_error_map, nth_error_seq.
  destruct (Nat.ltb_spec j n); [reflexivity|lia].
Qed.

Lemma linspace_nth start stop num j :
  (j < num)%nat ->
  nth_error (linspace start stop num) j =
  Some (start + INR j * ((stop - start) / INR (num - 1))).
Proof.
  intros H; unfold linspace; rewrite nth_error_map_seq by exact H.
  destruct (Nat.eqb_spec (S j) num) as [E|_]; cbn [andb]; [|reflexivity].
  destruct (Nat.ltb_spec 1 num) as [H1|_]; [|reflexivity].
  f_equal; subst num; cbn [Nat.sub]; rewrite Nat.sub_0_r.
  assert (INR j <> 0) by (apply not_0_INR; lia).
  field; assumption.
Qed.


(** ** Exceptions of a line *)

Lemma rev_string_nonempty s : forall acc,
  acc <> EmptyString \/ s <> EmptyString -> rev_string acc s <> EmptyString.
Proof.
  induction s as [|c s IH]; intros acc H; cbn [rev_string].
  - destruct H; [assumption|contradiction].
  - apply IH; left; discriminate.
Qed.

Lemma flush_nonempty cur rest :
  Forall (fun t => t <> EmptyString) rest ->
  Forall (fun t => t <> EmptyString) (flush cur rest).
Proof.
  intros H; destruct cur as [|c cur]; cbn [flush]; [exact H|].
  constructor; [|exact H].
  apply rev_string_nonempty; right; discriminate.
Qed.

Lemma split_from_nonempty s : forall cur,
  Forall (fun t => t <> EmptyString) (split_from cur s).
Proof.
  induction s as [|c s IH]; intros cur; cbn [split_from].
  - apply flush_nonempty; constructor.
  - destruct (is_space c); [apply flush_nonempty|]; apply IH.
Qed.

(** The tokens of [str.split()] are not empty, so [line[0][0]] exists as
    soon as [line[0]] does. *)
Lemma split_nonempty iline : Forall (fun t => t <> EmptyString) (split iline).
Proof. apply split_from_nonempty. Qed.

Section Exceptions.

Variable float64 : string -> option R.
Variables ny npT : nat.

Lemma float64_list_None l :
  float64_list float64 l = None <-> exists tok, In tok l /\ float64 tok = None.
Proof.
  induction l as [|s l IH]; cbn [float64_list].
  - split; [discriminate|intros (tok & [] & _)].
  - destruct (float64 s) as [x|] eqn:Es.
    + destruct (float64_list float64 l) as [xs|].
      * split; [discriminate|].
        intros (tok & [<-|Hin] & Htok); [congruence|].
        assert (X : Some xs = None) by (apply IH; eauto).
        discriminate.
      * split; [intros _|reflexivity].
        destruct (proj1 IH eq_refl) as (tok & Hin & Htok).
        exists tok; split; [right; exact Hin|exact Htok].
    + split; [intros _; exists s; split; [left; reflexivity|exact Es]|reflexivity].
Qed.

Lemma float64_list_length l xs :
  float64_list float64 l = Some xs -> List.length xs = List.length l.
Proof.
  revert xs; induction l as [|s l IH]; cbn [float64_list]; intros xs H.
  - inversion H; reflexivity.
  - destruct (float64 s); [|discriminate].
    destruct (float64_list float64 l) as [ys|]; [|discriminate].
    inversion H; subst; cbn [List.length]; f_equal; apply IH; reflexivity.
Qed.

Lemma unpack4_fails l :
  List.length l = 4%nat ->
  (unpack4 float64 l = Raise ValueError <->
   exists tok, In tok l /\ float64 tok = None).
Proof.
  intros Hl; rewrite <- float64_list_None; unfold unpack4.
  destruct (float64_list float64 l) as [xs|] eqn:E; [|split; reflexivity].
  apply float64_list_length in E; rewrite Hl in E.
  destruct xs as [|a [|b [|c [|d [|e xs]]]]]; try discriminate.
  split; discriminate.
Qed.

(** For the two formats of the script, a line with the token of the
    particle code has its four coordinates and its four momenta. *)
Lemma slices_are_complete type fmt (line : list string) code :
  select_format type = Some fmt ->
  nth_error line (pdg_idx fmt) = Some code ->
  List.length (slice line 0 4) = 4%nat /\
  List.length (slice line (mom_start fmt) (mom_end fmt)) = 4%nat.
Proof.
  intros Hfmt Hcode.
  assert (Hlen : (pdg_idx fmt < List.length line)%nat).
  { apply nth_error_Some; congruence. }
  unfold select_format in Hfmt.
  destruct (String.eqb type "SMASH");
    [|destruct (String.eqb type "BHAC-QGP"); [|discriminate]];
    inversion Hfmt; subst fmt; unfold slice;
    cbn [pdg_idx mom_start mom_end SMASH BHAC_QGP] in *;
    rewrite !length_firstn, !length_skipn; lia.
Qed.

(** X14.  Where [IndexError] comes from.  In either state of the tracker
    a line raises [IndexError] exactly when it is too short: it has no
    token at all, or it is a comment with a single token, or a comment
    that names an event block and has fewer than four tokens, or a
    particle line that ends before the field of the particle code. *)
Theorem index_error_means_short_line fmt ys ps dy dpT st iline :
  process_line float64 ny npT fmt ys ps dy dpT st iline = Raise IndexError <->
  too_short fmt iline = true.
Proof.
  pose proof (split_nonempty iline) as Hne.
  unfold process_line, too_short, is_comment, index.
  destruct (split iline) as [|l0 line] eqn:E.
  - split; reflexivity.
  - inversion Hne as [|? ? Hl0 _]; subst.
    change (nth_error (l0 :: line) 0) with (Some l0); cbn [bind].
    destruct l0 as [|c0 l0]; [contradiction|]; cbn [first_char bind].
    destruct (chr_eq c0 "#").
    + unfold comment_line, index.
      destruct (nth_error (String c0 l0 :: line) 1) as [l1|]; cbn [bind];
        [|split; reflexivity].
      destruct (str_eq l1 _); cbn [andb]; [|split; discriminate].
      destruct (nth_error (String c0 l0 :: line) 3) as [l3|]; cbn [bind];
        [|split; reflexivity].
      destruct (str_eq l3 (event_start_identifier fmt)); [split; discriminate|].
      destruct (str_eq l3 _); [destruct (unfinished_event st)|];
        split; discriminate.
    + unfold particle_line, index.
      destruct (nth_error (String c0 l0 :: line) (pdg_idx fmt)) as [code|];
        cbn [bind]; [|split; reflexivity].
      destruct (lookup hadrons code) as [[h name]|]; [|split; discriminate].
      destruct (unpack4_cases float64 (slice (String c0 l0 :: line) 0 4))
        as [[txyz ->]| ->]; cbn [bind]; [|split; discriminate].
      destruct (unpack4_cases float64
                  (slice (String c0 l0 :: line) (mom_start fmt) (mom_end fmt)))
        as [[[[[p0 px] py] pz] ->]| ->]; cbn [bind]; split; discriminate.
Qed.


End Exceptions.

(** ** The output file *)

Lemma length_append (a b : string) :
  String.length (a ++ b) = (String.length a + String.length b)%nat.
Proof. induction a as [|c a IH]; cbn; [reflexivity|rewrite IH; reflexivity]. Qed.

Lemma backup_name_differs outputfile date_string :
  backup_name outputfile date_string <> outputfile.
Proof.
  unfold backup_name; intros E.
  apply (f_equal String.length) in E.
  rewrite !length_append in E; cbn [String.length] in E; lia.
Qed.

Section OutputFile.

Variable float64 : string -> option R.
Variables ny npT : nat.
Variables y_arr pT_arr : list R.

Local Abbreviation run_script := (script float64 ny npT y_arr pT_arr).

(** X16.  The output file is present at the end exactly when the run
    succeeded.  After a run with a known format the output path holds the
    pickled result if the script reached line 236, and nothing otherwise
    (an older output has been moved away by then); with an unknown format
    the disk is left as it was. *)
Theorem output_present_iff_run_succeeded
    date_string type outputfile inputs d :
  let '(result, d') := script float64 ny npT y_arr pT_arr date_string type outputfile inputs d in
  match result with
  | Return p => d' outputfile = Some (Pickled p)
  | _ => (select_format type = None -> d' = d) /\
         (select_format type <> None -> d' outputfile = None)
  end.
Proof.
  unfold script, move_old_output.
  destruct (select_format type) as [fmt|]; [|split; [auto|congruence]].
  assert (Hgone :
    match d outputfile with
    | Some _ => rename d outputfile (backup_name outputfile date_string)
    | None => d
    end outputfile = None).
  { destruct (d outputfile) eqn:E; [|exact E].
    unfold rename.
    destruct (String.eqb_spec outputfile (backup_name outputfile date_string))
      as [E'|_]; [symmetry in E'; apply backup_name_differs in E'; contradiction|].
    rewrite String.eqb_refl; reflexivity. }
  destruct (main _ _ _ _ _ _ _ _) as [p|s|e].
  - unfold write; rewrite String.eqb_refl; reflexivity.
  - split; [discriminate|auto].
  - split; [discriminate|auto].
Qed.

(** X17.  An older output is never lost, and no other file is touched.
    With a known format, whatever the outcome of the run, the content found
    at the output path at the start is at the backup path at the end, and
    every path other than these two holds what it held at the start. *)
Theorem old_output_is_kept date_string type outputfile inputs d fmt :
  select_format type = Some fmt ->
  let d' := snd (script float64 ny npT y_arr pT_arr date_string type outputfile inputs d) in
  (forall c, d outputfile = Some c ->
     d' (backup_name outputfile date_string) = Some c) /\
  (forall name, name <> outputfile ->
     name <> backup_name outputfile date_string -> d' name = d name).
Proof.
  intros Hfmt; unfold script; rewrite Hfmt; cbv zeta.
  set (d1 := move_old_output outputfile date_string d).
  assert (H1 : forall c, d outputfile = Some c ->
                 d1 (backup_name outputfile date_string) = Some c).
  { intros c Hc; unfold d1, move_old_output, rename; rewrite Hc.
    rewrite String.eqb_refl; reflexivity. }
  assert (H2 : forall name, name <> outputfile ->
                 name <> backup_name outputfile date_string -> d1 name = d name).
  { intros name N1 N2; unfold d1, move_old_output, rename.
    destruct (d outputfile); [|reflexivity].
    destruct (String.eqb_spec name (backup_name outputfile date_string));
      [contradiction|].
    destruct (String.eqb_spec name outputfile); [contradiction|reflexivity]. }
  destruct (main _ _ _ _ _ _ _ _) as [p|s|e]; cbn [snd]; try (split; assumption).
  split.
  - intros c Hc; unfold write.
    destruct (String.eqb_spec (backup_name outputfile date_string) outputfile)
      as [E|_]; [apply backup_name_differs in E; contradiction|auto].
  - intros name N1 N2; unfold write.
    destruct (String.eqb_spec name outputfile); [contradiction|auto].
Qed.

(** X18.  The previous output cannot serve as an input of the run that
    replaces it: when the output path exists and is also the next input
    file, it has been moved away before it is opened, and the run ends
    with the exception of [open] and without an output. *)
Theorem previous_output_is_not_read
    date_string type outputfile before rest d fmt c y0 pT0 tot :
  select_format type = Some fmt ->
  d outputfile = Some c ->
  index y_arr 0 = Return y0 -> index pT_arr 0 = Return pT0 ->
  run_files float64 ny npT y_arr pT_arr
    (readable (move_old_output outputfile date_string d)) fmt
    (initial_totals ny npT) before = Return tot ->
  let '(result, d') :=
    script float64 ny npT y_arr pT_arr date_string type outputfile
      (before ++ outputfile :: rest)%list d in
  result = Raise OSError /\ d' outputfile = None.
Proof.
  intros Hfmt Hc Hy Hp Hbefore.
  pose proof (output_present_iff_run_succeeded date_string type outputfile
                (before ++ outputfile :: rest)%list d) as Hout.
  unfold script in *; rewrite Hfmt in *.
  set (d1 := move_old_output outputfile date_string d) in *.
  assert (Hgone : readable d1 outputfile = None).
  { unfold readable, d1, move_old_output, rename; rewrite Hc.
    destruct (String.eqb_spec outputfile (backup_name outputfile date_string))
      as [E'|_]; [symmetry in E'; apply backup_name_differs in E'; contradiction|].
    rewrite String.eqb_refl; reflexivity. }
  assert (Hmain : main float64 ny npT y_arr pT_arr type (readable d1)
                    (before ++ outputfile :: rest)%list = Raise OSError).
  { unfold main; rewrite Hfmt, run_files_app, Hbefore; cbn [bind run_files].
    unfold extract_data_oscar; rewrite Hy, Hp; cbn [bind]; rewrite Hgone.
    reflexivity. }
  rewrite Hmain in *; split; [reflexivity|].
  apply Hout; congruence.
Qed.

End OutputFile.

(** * The further properties on sample files *)

Lemma more_extract_reads infile ifile :
  more_files infile = Some ifile ->
  more_extract infile =
  bind (sample_read sample_initial ifile)
       (fun st => Return (Some (events_in_file st),
                          y_spectra_file st, pT_spectra_file st)).
Proof.
  intros H; unfold more_extract, extract_data_oscar.
  rewrite script_y_start, script_pT_start; cbn [bind]; rewrite H; reflexivity.
Qed.

Lemma wide_step st :
  sample_step st wide_line =
  Return {| unfinished_event := unfinished_event st;
            events_in_file := events_in_file st;
            y_spectra_event := add_particle (y_spectra_event st) 0 25 1 1;
            pT_spectra_event := pT_spectra_event st;
            y_spectra_file := y_spectra_file st;
            pT_spectra_file := pT_spectra_file st |}.
Proof.
  unfold sample_step.
  destruct (sample_lines_read script_ys script_ps dy dpT st) as (-> & _ & _).
  rewrite wide_fill; reflexivity.
Qed.

Lemma header_step st : sample_step st header_line = Return st.
Proof. reflexivity. Qed.

Lemma odd_label_step st : sample_step st odd_label_line = Exit 1.
Proof. reflexivity. Qed.

(** Read sample lines of all kinds one after the other. *)
Ltac more_lines :=
  repeat (first [ rewrite sample_read_nil
                | rewrite sample_read_cons;
                  first [ rewrite start_step | rewrite end_step
                        | rewrite pion_step | rewrite wide_step
                        | rewrite header_step | rewrite odd_label_step
                        | rewrite blank_step ] ];
          cbn [bind with_flag unfinished_event events_in_file y_spectra_event
               pT_spectra_event y_spectra_file pT_spectra_file]).

Lemma more_one_event :
  more_extract "one_event.oscar" =
  Return (Some 1%Z, hadd (zeros nh script_ny) (one_pion script_ny 25),
          hadd (zeros nh script_npT) (one_pion script_npT 10)).
Proof.
  rewrite (more_extract_reads "one_event.oscar" _ eq_refl).
  rewrite one_event_read by reflexivity; reflexivity.
Qed.

Lemma more_header :
  more_extract "header.oscar" =
  Return (Some 1%Z, hadd (zeros nh script_ny) (one_pion script_ny 25),
          hadd (zeros nh script_npT) (one_pion script_npT 10)).
Proof.
  rewrite (more_extract_reads "header.oscar" _ eq_refl); more_lines; reflexivity.
Qed.

Lemma more_pion_wide :
  more_extract "pion_wide.oscar" =
  Return (Some 1%Z,
          hadd (zeros nh script_ny)
               (add_particle (one_pion script_ny 25) 0 25 1 1),
          hadd (zeros nh script_npT) (one_pion script_npT 10)).
Proof.
  rewrite (more_extract_reads "pion_wide.oscar" _ eq_refl); more_lines.
  reflexivity.
Qed.

Lemma more_empty :
  more_extract "empty.oscar" =
  Return (Some 0%Z, zeros nh script_ny, zeros nh script_npT).
Proof. rewrite (more_extract_reads "empty.oscar" _ eq_refl); reflexivity. Qed.

Lemma more_comments :
  more_extract "comments.oscar" =
  Return (Some 0%Z, zeros nh script_ny, zeros nh script_npT).
Proof.
  rewrite (more_extract_reads "comments.oscar" _ eq_refl); more_lines.
  reflexivity.
Qed.

(** [unknown_label_is_fatal] on a file with the label [begin]. *)
Lemma unknown_label_is_fatal_witness :
  select_format "SMASH" = Some SMASH /\
  more_files "odd_label.oscar"
    = Some ([event_start_line] ++ odd_label_line :: [event_end_line])%list /\
  is_unknown_label SMASH odd_label_line = true /\
  more_extract "odd_label.oscar" = Exit 1 /\
  more_main "SMASH" ["odd_label.oscar"; "one_event.oscar"] = Exit 1.
Proof.
  pose proof (unknown_label_is_fatal integer_literal script_ny script_npT
                script_y_arr script_pT_arr "SMASH" SMASH more_files []
                "odd_label.oscar" ["one_event.oscar"] [event_start_line]
                odd_label_line [event_end_line] (-5 + 0 * 0.2) (0.05 + 0 * 0.1)
                (with_flag true sample_initial)
                (initial_totals script_ny script_npT)
                eq_refl eq_refl eq_refl eq_refl eq_refl eq_refl eq_refl)
    as [Hextract Hmain].
  split; [reflexivity|].
  split; [reflexivity|].
  split; [reflexivity|].
  split; [exact Hextract|exact Hmain].
Defined.

(** [ignored_line_has_no_effect] on the header line of a SMASH file. *)
Lemma ignored_line_has_no_effect_witness :
  more_files "header.oscar"
    = Some ([] ++ header_line :: [event_start_line; pion_line; event_end_line])%list /\
  more_files "one_event.oscar"
    = Some ([] ++ [event_start_line; pion_line; event_end_line])%list /\
  is_ignored SMASH header_line = true /\
  more_extract "header.oscar" = more_extract "one_event.oscar".
Proof.
  split; [reflexivity|].
  split; [reflexivity|].
  split; [reflexivity|].
  apply (ignored_line_has_no_effect integer_literal script_ny script_npT
           more_files SMASH "header.oscar" "one_event.oscar"
           script_y_arr script_pT_arr dy dpT [] header_line
           [event_start_line; pion_line; event_end_line]
           eq_refl eq_refl eq_refl).
Defined.

(** [start_inside_event_has_no_effect] on a file with two start markers
    and one end marker. *)
Lemma start_inside_event_has_no_effect_witness :
  more_files "restart.oscar"
    = Some ([event_start_line; pion_line]
            ++ event_start_line :: [pion_line; event_end_line])%list /\
  more_files "merged.oscar"
    = Some ([event_start_line; pion_line] ++ [pion_line; event_end_line])%list /\
  is_start_marker SMASH event_start_line = true /\
  open_after SMASH false [event_start_line; pion_line] = true /\
  more_extract "restart.oscar" = more_extract "merged.oscar".
Proof.
  split; [reflexivity|].
  split; [reflexivity|].
  split; [reflexivity|].
  split; [reflexivity|].
  apply (start_inside_event_has_no_effect integer_literal script_ny script_npT
           more_files SMASH "restart.oscar" "merged.oscar"
           script_y_arr script_pT_arr dy dpT [event_start_line; pion_line]
           event_start_line [pion_line; event_end_line]
           eq_refl eq_refl eq_refl eq_refl).
Defined.

(** [event_count_is_number_of_end_markers] on ["one_event.oscar"]. *)
Lemma event_count_is_number_of_end_markers_witness :
  more_files "one_event.oscar"
    = Some [event_start_line; pion_line; event_end_line] /\
  more_extract "one_event.oscar" =
    Return (Some 1%Z, hadd (zeros nh script_ny) (one_pion script_ny 25),
            hadd (zeros nh script_npT) (one_pion script_npT 10)) /\
  Some 1%Z =
  Some (wrap64 (Z.of_nat (count_end_markers SMASH
                            [event_start_line; pion_line; event_end_line]))).
Proof.
  split; [reflexivity|].
  split; [apply more_one_event|].
  apply (proj1 (event_count_is_number_of_end_markers integer_literal script_ny
                  script_npT more_files SMASH "one_event.oscar"
                  script_y_arr script_pT_arr dy dpT
                  [event_start_line; pion_line; event_end_line] (Some 1%Z) _ _
                  eq_refl more_one_event)).
Defined.




(** [run_without_events_exits_2] on an empty file and a file of comments. *)
Lemma run_without_events_exits_2_witness :
  select_format "SMASH" = Some SMASH /\
  (forall infile, In infile ["empty.oscar"; "comments.oscar"] ->
     exists y p, more_extract infile = Return (Some 0%Z, y, p)) /\
  more_main "SMASH" ["empty.oscar"; "comments.oscar"] = Exit 2.
Proof.
  assert (Hall : forall infile, In infile ["empty.oscar"; "comments.oscar"] ->
                   exists y p, more_extract infile = Return (Some 0%Z, y, p)).
  { intros infile [<-|[<-|[]]]; do 2 eexists;
      [apply more_empty|apply more_comments]. }
  split; [reflexivity|].
  split; [exact Hall|].
  apply (run_without_events_exits_2 integer_literal script_ny script_npT
           script_y_arr script_pT_arr "SMASH" SMASH more_files
           ["empty.oscar"; "comments.oscar"] eq_refl Hall).
Defined.

Lemma sample_main_one_event :
  sample_main "SMASH" ["one_event.oscar"] = Return one_pion_pickle.
Proof. rewrite sample_main_SMASH, sample_run_one_event; reflexivity. Qed.

(** [written_output_is_well_formed] on the run over ["one_event.oscar"]. *)
Lemma written_output_is_well_formed_witness :
  sample_main "SMASH" ["one_event.oscar"] = Return one_pion_pickle /\
  out_total_events one_pion_pickle <> 0%Z /\
  shape nh script_ny (out_y_spectra one_pion_pickle) /\
  whole_counts (out_y_spectra one_pion_pickle).
Proof.
  split; [apply sample_main_one_event|].
  destruct (written_output_is_well_formed integer_literal script_ny script_npT
              script_y_arr script_pT_arr "SMASH" sample_directory
              ["one_event.oscar"] one_pion_pickle sample_main_one_event)
    as (H1 & _ & H3 & _ & H5 & _).
  split; [exact H1|split; [exact H3|exact H5]].
Defined.

Lemma pion_rapidity : 0.5 * ln ((1 + 0) / (1 - 0)) = 0.
Proof. replace ((1 + 0) / (1 - 0)) with 1 by lra. rewrite ln_1; lra. Qed.

Lemma pion_pT : sqrt ((-1) ^ 2 + 0 ^ 2) = 1.
Proof. replace ((-1) ^ 2 + 0 ^ 2) with 1 by lra. apply sqrt_1. Qed.

Lemma nh_positive : (0 < nh)%nat.
Proof. unfold nh; cbn; lia. Qed.




(** [old_output_is_kept] on a run over ["one_event.oscar"]. *)
Lemma old_output_is_kept_witness :
  select_format "SMASH" = Some SMASH /\
  sample_disk "output.pickle" = Some (Text ["an older output"]) /\
  snd (sample_script ["one_event.oscar"])
      (backup_name "output.pickle" "2024-01-31-12-00-00")
  = Some (Text ["an older output"]).
Proof.
  split; [reflexivity|].
  split; [reflexivity|].
  apply (proj1 (old_output_is_kept integer_literal script_ny script_npT
                  script_y_arr script_pT_arr "2024-01-31-12-00-00" "SMASH"
                  "output.pickle" ["one_event.oscar"] sample_disk SMASH eq_refl)).
  reflexivity.
Defined.

(** [previous_output_is_not_read] on a run that names its own output
    path as its first input. *)
Lemma previous_output_is_not_read_witness :
  select_format "SMASH" = Some SMASH /\
  sample_disk "output.pickle" = Some (Text ["an older output"]) /\
  index script_y_arr 0 = Return (-5 + 0 * 0.2) /\
  index script_pT_arr 0 = Return (0.05 + 0 * 0.1) /\
  fst (sample_script ([] ++ "output.pickle" :: ["one_event.oscar"])%list)
  = Raise OSError.
Proof.
  split; [reflexivity|].
  split; [reflexivity|].
  split; [apply script_y_start|].
  split; [apply script_pT_start|].
  pose proof (previous_output_is_not_read integer_literal script_ny script_npT
                script_y_arr script_pT_arr "2024-01-31-12-00-00" "SMASH"
                "output.pickle" [] ["one_event.oscar"] sample_disk SMASH
                (Text ["an older output"]) (-5 + 0 * 0.2) (0.05 + 0 * 0.1)
                (initial_totals script_ny script_npT)
                eq_refl eq_refl script_y_start script_pT_start eq_refl) as H.
  unfold sample_script.
  destruct (script _ _ _ _ _ _ _ _ _ _) as [result d'].
  exact (proj1 H).
Defined.
